(** * rubber-docker, levels 00 (fork/exec) and 04 (overlay root)

    A shallow embedding of [levels/00_fork_exec/rd.py] and
    [levels/04_overlay/rd.py].  The scripts are sequences of operating-system
    and library calls, so a script becomes a finite tree of calls (a free
    monad over the call signature), and its behaviour is the set of traces
    the tree admits, either against every environment ([runs]) or against a
    small model of the file system ([runs_in], [exec]). *)

From stdpp Require Import gmap strings pretty list fin_maps.
From Stdlib Require Import ZArith Ascii.

Local Open Scope Z_scope.

(** ** Python values *)

(** The exception classes the scripts can meet.  [KeyboardInterrupt] and
    [SystemExit] derive from [BaseException] only; every other class derives
    from [Exception]. *)
Inductive exn :=
| OSError (msg : string)
| IOError (msg : string)
| RuntimeError (msg : string)
| AssertionError (msg : string)
| IndexError (msg : string)
| TarError (msg : string)
| KeyboardInterrupt
| SystemExit (code : Z).

(** [isinstance(e, Exception)]. *)
Definition is_Exception (e : exn) : bool :=
  match e with
  | KeyboardInterrupt | SystemExit _ => false
  | _ => true
  end.

(** [str.startswith('/')] and [str.endswith('/')]. *)
Definition startswith_sep (s : string) : bool :=
  match s with
  | String a _ => bool_decide (a = "/"%char)
  | EmptyString => false
  end.

Fixpoint endswith_sep (s : string) : bool :=
  match s with
  | EmptyString => false
  | String a EmptyString => bool_decide (a = "/"%char)
  | String _ s' => endswith_sep s'
  end.

(** One round of the loop of [posixpath.join] (Python 2.7): an absolute
    component discards what precedes it, a separator is inserted unless the
    path so far is empty or already ends with one. *)
Definition join2 (path b : string) : string :=
  if startswith_sep b then b
  else if bool_decide (path = "") || endswith_sep path then path +:+ b
  else path +:+ "/" +:+ b.

(** [os.path.join(a, *p)]. *)
Definition os_path_join (a : string) (p : list string) : string :=
  foldl join2 a p.

(** [os.extsep.join([a, b])], with [os.extsep = '.']. *)
Definition extsep_join (a b : string) : string := a +:+ "." +:+ b.

(** [str(n)], ['%d' % n] and ['{}'.format(n)] for an integer. *)
Definition str_of_int (n : Z) : string := pretty n.

(** ** Constants of the standard library *)

Module stat.
(** Octal 020000, 060000 and 010000. *)
Definition S_IFCHR : Z := 0x2000.
Definition S_IFBLK : Z := 0x6000.
Definition S_IFIFO : Z := 0x1000.
(** [stat.S_IFMT(mode)] and [stat.S_IMODE(mode)]: the masks are octal
    170000 and 7777. *)
Definition S_IFMT (mode : Z) : Z := Z.land mode 0xf000.
Definition S_IMODE (mode : Z) : Z := Z.land mode 0xfff.
End stat.

Module tarfile.
Definition REGTYPE : string := "0".
Definition LNKTYPE : string := "1".
Definition SYMTYPE : string := "2".
Definition CHRTYPE : string := "3".
Definition BLKTYPE : string := "4".
Definition DIRTYPE : string := "5".
Definition FIFOTYPE : string := "6".
End tarfile.

(** [os.makedev], [os.major] and [os.minor]: the C library's encoding of a
    device number (glibc: twelve low bits of the major above eight low bits of
    the minor, the remaining bits of both further up). *)
Definition os_makedev (major minor : Z) : Z :=
  Z.lor (Z.lor (Z.shiftl (Z.land major 0xfff) 8)
               (Z.shiftl (Z.land major 0xfffff000) 32))
        (Z.lor (Z.land minor 0xff)
               (Z.shiftl (Z.land minor 0xffffff00) 12)).

Definition os_major (dev : Z) : Z :=
  Z.lor (Z.land (Z.shiftr dev 8) 0xfff)
        (Z.land (Z.shiftr dev 32) 0xfffff000).

Definition os_minor (dev : Z) : Z :=
  Z.lor (Z.land dev 0xff)
        (Z.land (Z.shiftr dev 12) 0xffffff00).

(** A member of a tar archive ([tarfile.TarInfo]). *)
Record TarInfo := {
  name : string;
  type : string;
  mode : Z;
  linkname : string;
  devmajor : Z;
  devminor : Z
}.

(** An open archive ([tarfile.TarFile]), known by the path it was opened
    from. *)
Record TarFile := { tf_name : string }.

(** ** Calls into the operating system and the libraries *)

(** Modelled from the spec: the [linux] extension module that the level-04
    script imports is not among the sources.  Its integer constants are
    taken as parameters; its functions appear below as calls. *)
Class LinuxModule := {
  CLONE_NEWNS : Z;
  MS_NODEV : Z;
  MS_NOSUID : Z;
  MS_STRICTATIME : Z;
  MS_PRIVATE : Z;
  MS_REC : Z;
  MNT_DETACH : Z
}.

(** The values the kernel headers give these constants. *)
Definition kernel_headers : LinuxModule := {|
  CLONE_NEWNS := 0x20000;
  MS_NODEV := 4;
  MS_NOSUID := 2;
  MS_STRICTATIME := 0x1000000;
  MS_PRIVATE := 0x40000;
  MS_REC := 0x4000;
  MNT_DETACH := 2
|}.

Inductive call :=
| Unshare (flags : Z)                        (* linux.unshare *)
| Mount (source : option string) (target : string) (fstype : option string)
        (flags : Z) (data : option string)   (* linux.mount *)
| Umount2 (target : string) (flags : Z)      (* linux.umount2 *)
| PivotRoot (new_root put_old : string)      (* linux.pivot_root *)
| Exists (path : string)                     (* os.path.exists *)
| Makedirs (path : string)                   (* os.makedirs *)
| Rmdir (path : string)                      (* os.rmdir *)
| Chdir (path : string)                      (* os.chdir *)
| Symlink (src dst : string)                 (* os.symlink *)
| Mknod (path : string) (mode device : Z)    (* os.mknod *)
| TarOpen (path : string)                    (* tarfile.open *)
| GetMembers (t : TarFile)                   (* TarFile.getmembers *)
| ExtractAll (t : TarFile) (path : string) (members : list TarInfo)
                                             (* TarFile.extractall *)
| TarClose (t : TarFile)                     (* TarFile.__exit__ *)
| Print (line : string)                      (* print, to standard output *)
| PrintExc (e : exn)                         (* traceback.print_exc, to
                                                standard error *)
| Uuid4                                      (* str(uuid.uuid4()) *)
| Fork                                       (* os.fork *)
| Waitpid (pid options : Z)                  (* os.waitpid *)
| Execvp (file : string) (args : list string) (* os.execvp *)
| Exit_ (status : Z).                        (* os._exit *)

(** What a call hands back when it returns.  [os.execvp] and [os._exit] have
    nothing to hand back: they do not return. *)
Definition ret (c : call) : Type :=
  match c with
  | Exists _ => bool
  | TarOpen _ => TarFile
  | GetMembers _ => list TarInfo
  | Uuid4 => string
  | Fork => Z
  | Waitpid _ _ => (Z * Z)%type
  | Execvp _ _ | Exit_ _ => Empty_set
  | _ => unit
  end.

(** A call returns a value or raises. *)
Inductive reply (X : Type) :=
| Ok (x : X)
| Err (e : exn).
Arguments Ok {X} x.
Arguments Err {X} e.

(** Calls that never raise: [os.path.exists] answers [False] where [os.stat]
    fails, [os._exit] cannot fail, and writes to the standard streams are
    taken to succeed. *)
Definition fallible (c : call) : bool :=
  match c with
  | Exists _ | Print _ | PrintExc _ | Exit_ _ => false
  | _ => true
  end.

(** How a process stops other than by returning. *)
Inductive stop :=
| Raised (e : exn)                              (* an uncaught exception *)
| Replaced (file : string) (args : list string) (* the image was replaced *)
| Exited (status : Z).                          (* the process is gone *)

Definition stop_of (c : call) : option stop :=
  match c with
  | Execvp file args => Some (Replaced file args)
  | Exit_ status => Some (Exited status)
  | _ => None
  end.

Inductive outcome (A : Type) :=
| Returned (a : A)
| Abort (s : stop).
Arguments Returned {A} a.
Arguments Abort {A} s.

(** ** Scripts as trees of calls *)

Inductive prog (A : Type) : Type :=
| Ret (a : A)
| Raise (e : exn)
| Sys (c : call) (k : reply (ret c) → prog A).
Arguments Ret {A} a.
Arguments Raise {A} e.
Arguments Sys {A} c k.

(** A call on its own: its value is returned, its exception raised. *)
Definition sys (c : call) : prog (ret c) :=
  Sys c (λ r, match r with Ok x => Ret x | Err e => Raise e end).

Fixpoint bind {A B} (p : prog A) (f : A → prog B) : prog B :=
  match p with
  | Ret a => f a
  | Raise e => Raise e
  | Sys c k => Sys c (λ r, bind (k r) f)
  end.

#[export] Instance prog_ret : MRet prog := @Ret.
#[export] Instance prog_bind : MBind prog := λ A B f p, bind p f.

(** [try: p / except: h], for a handler that inspects the exception. *)
Fixpoint try_except {A} (p : prog A) (h : exn → prog A) : prog A :=
  match p with
  | Ret a => Ret a
  | Raise e => h e
  | Sys c k => Sys c (λ r, try_except (k r) h)
  end.

(** [try: p / finally: f]. *)
Fixpoint try_finally {A} (p : prog A) (f : prog unit) : prog A :=
  match p with
  | Ret a => f ;; Ret a
  | Raise e => f ;; Raise e
  | Sys c k => Sys c (λ r, try_finally (k r) f)
  end.

(** [for x in l: body x]. *)
Fixpoint for_each {X} (l : list X) (body : X → prog unit) : prog unit :=
  match l with
  | [] => Ret tt
  | x :: l' => body x ;; for_each l' body
  end.

(** [assert cond, msg]. *)
Definition assert_ (cond : bool) (msg : string) : prog unit :=
  if cond then Ret tt else Raise (AssertionError msg).

(** [with tarfile.open(path) as t: body t]: the archive is closed on the way
    out, whether the body returned or raised. *)
Definition with_tarfile_open {A} (path : string) (body : TarFile → prog A)
  : prog A :=
  t ← sys (TarOpen path); try_finally (body t) (sys (TarClose t)).

(** [os.execvp(file, args)] and [os._exit(status)]: nothing follows them
    unless [os.execvp] raises. *)
Definition os_execvp {A} (file : string) (args : list string) : prog A :=
  x ← sys (Execvp file args); match x : Empty_set with end.

Definition os__exit {A} (status : Z) : prog A :=
  x ← sys (Exit_ status); match x : Empty_set with end.

(** [enumerate(l)]. *)
Definition enumerate {X} (l : list X) : list (Z * X) :=
  imap (λ i x, (Z.of_nat i, x)) l.

(** The order in which a Python 2 dictionary yields its items is not fixed by
    the language: it is some arrangement of the items. *)
Class DictOrder := {
  iteritems : list (string * (Z * Z * Z)) → list (string * (Z * Z * Z));
  iteritems_perm : ∀ d, iteritems d ≡ₚ d
}.

(** The arrangement that follows the dictionary display. *)
Definition display_order : DictOrder :=
  {| iteritems := λ d, d; iteritems_perm := λ d, reflexivity d |}.

(** ** Traces *)

(** An event is a call with its reply, or a call that did not return. *)
Inductive event :=
| Ev (c : call) (r : reply (ret c))
| Halt (c : call).

Definition may_reply (c : call) (r : reply (ret c)) : Prop :=
  match r with
  | Ok _ => True
  | Err _ => fallible c = true
  end.

(** [runs p tr o]: against some environment, [p] makes the calls of [tr],
    receives the replies of [tr], and ends as [o]. *)
Fixpoint runs {A} (p : prog A) (tr : list event) (o : outcome A) : Prop :=
  match p with
  | Ret a => tr = [] ∧ o = Returned a
  | Raise e => tr = [] ∧ o = Abort (Raised e)
  | Sys c k =>
      (∃ r tr', may_reply c r ∧ tr = Ev c r :: tr' ∧ runs (k r) tr' o)
      ∨ (∃ s, stop_of c = Some s ∧ tr = [Halt c] ∧ o = Abort s)
  end.

(** ** levels/00_fork_exec/rd.py *)

Module ForkExec.

(** [os.execvp(command[0], command)]; indexing an empty tuple raises. *)
Definition contain (command : list string) : prog unit :=
  match command with
  | [] => Raise (IndexError "tuple index out of range")
  | file :: _ => os_execvp file command
  end.

Definition run (command : list string) : prog unit :=
  pid ← sys Fork;
  (if bool_decide (pid = 0) then
     try_except (contain command)
       (λ e, if is_Exception e
             then sys (PrintExc e) ;; os__exit 1
             else Raise e)
   else Ret tt) ;;
  sys (Print (str_of_int pid)) ;;
  '(_, status) ← sys (Waitpid pid 0);
  sys (Print (str_of_int pid +:+ " exited with status "
              +:+ str_of_int status)).

End ForkExec.

(** ** levels/04_overlay/rd.py *)

(** [m.type not in (tarfile.CHRTYPE, tarfile.BLKTYPE)]: the archive member
    is neither a character nor a block device. *)
Definition not_device (m : TarInfo) : Prop :=
  type m ∉ [tarfile.CHRTYPE; tarfile.BLKTYPE].

#[export] Instance not_device_dec m : Decision (not_device m).
Proof. unfold not_device. apply _. Defined.

Module Overlay.
Section Overlay.
Context `{LinuxModule} `{DictOrder}.

Definition _get_image_path (image_name image_dir image_suffix : string)
  : string :=
  os_path_join image_dir [extsep_join image_name image_suffix].

Definition _get_container_path (container_id container_dir : string)
    (subdir_names : list string) : string :=
  os_path_join container_dir (container_id :: subdir_names).

(** The option string handed to the overlay mount. *)
Definition overlay_options (image_root upper_path work_root : string)
  : string :=
  "lowerdir=" +:+ image_root +:+ ",upperdir=" +:+ upper_path
    +:+ ",workdir=" +:+ work_root.

Definition create_container_root
    (image_name image_dir container_id container_dir : string)
  : prog string :=
  let image_path := _get_image_path image_name image_dir "tar" in
  let image_root := os_path_join image_dir [image_name; "rootfs"] in
  let overlay_path := os_path_join container_dir ["overlay"] in
  b ← sys (Exists overlay_path);
  (if negb b then sys (Makedirs overlay_path) else Ret tt) ;;
  b ← sys (Exists image_path);
  assert_ b ("unable to locate image " +:+ image_name) ;;
  b ← sys (Exists image_root);
  (if negb b then
     sys (Makedirs image_root) ;;
     with_tarfile_open image_path (λ t,
       ms ← sys (GetMembers t);
       let members := filter not_device ms in
       sys (ExtractAll t image_root members))
   else Ret tt) ;;
  let upper_path := _get_container_path container_id overlay_path ["upper"] in
  let work_root := _get_container_path container_id overlay_path ["work"] in
  let merged_mount_point :=
    _get_container_path container_id overlay_path ["merged"] in
  b ← sys (Exists upper_path);
  (if negb b then sys (Makedirs upper_path) else Ret tt) ;;
  b ← sys (Exists work_root);
  (if negb b then sys (Makedirs work_root) else Ret tt) ;;
  b ← sys (Exists merged_mount_point);
  (if negb b then sys (Makedirs merged_mount_point) else Ret tt) ;;
  sys (Print (overlay_options image_root upper_path work_root)) ;;
  sys (Mount (Some "overlay") merged_mount_point (Some "overlayfs") MS_NODEV
         (Some (overlay_options image_root upper_path work_root))) ;;
  Ret merged_mount_point.

(** The dictionary display of [makedev]. *)
Definition DEVICES : list (string * (Z * Z * Z)) :=
  [("null", (stat.S_IFCHR, 1, 3)); ("zero", (stat.S_IFCHR, 1, 5));
   ("random", (stat.S_IFCHR, 1, 8)); ("urandom", (stat.S_IFCHR, 1, 9));
   ("console", (stat.S_IFCHR, 136, 1)); ("tty", (stat.S_IFCHR, 5, 0));
   ("full", (stat.S_IFCHR, 1, 7))].

Definition makedev (dev_path : string) : prog unit :=
  for_each (enumerate ["stdin"; "stdout"; "stderr"]) (λ '(i, dev),
    sys (Symlink ("/proc/self/fd/" +:+ str_of_int i)
                 (os_path_join dev_path [dev]))) ;;
  sys (Symlink "/proc/self/fd" (os_path_join dev_path ["fd"])) ;;
  for_each (iteritems DEVICES) (λ '(device, (dev_type, major, minor)),
    sys (Mknod (os_path_join dev_path [device])
               (Z.lor 0x1b6 dev_type)     (* 0o666 | dev_type *)
               (os_makedev major minor))).

Definition _create_mounts (new_root : string) : prog unit :=
  sys (Mount (Some "proc") (os_path_join new_root ["proc"]) (Some "proc")
         0 (Some "")) ;;
  sys (Mount (Some "sysfs") (os_path_join new_root ["sys"]) (Some "sysfs")
         0 (Some "")) ;;
  sys (Mount (Some "tmpfs") (os_path_join new_root ["dev"]) (Some "tmpfs")
         (Z.lor MS_NOSUID MS_STRICTATIME) (Some "mode=755")) ;;
  let devpts_path := os_path_join new_root ["dev"; "pts"] in
  b ← sys (Exists devpts_path);
  (if negb b then
     sys (Makedirs devpts_path) ;;
     sys (Mount (Some "devpts") devpts_path (Some "devpts") 0 (Some ""))
   else Ret tt) ;;
  makedev (os_path_join new_root ["dev"]).

Definition contain (command : list string)
    (image_name image_dir container_id container_dir : string)
  : prog unit :=
  sys (Unshare CLONE_NEWNS) ;;
  sys (Mount None "/" None (Z.lor MS_PRIVATE MS_REC) None) ;;
  new_root ←
    create_container_root image_name image_dir container_id container_dir;
  sys (Print ("Created a new root fs for our container: " +:+ new_root)) ;;
  _create_mounts new_root ;;
  let old_root := os_path_join new_root ["old_root"] in
  sys (Makedirs old_root) ;;
  sys (PivotRoot new_root old_root) ;;
  sys (Chdir "/") ;;
  sys (Umount2 "/old_root" MNT_DETACH) ;;
  sys (Rmdir "/old_root") ;;
  match command with
  | [] => Raise (IndexError "tuple index out of range")
  | file :: _ => os_execvp file command
  end.

Definition run (image_name image_dir container_dir : string)
    (command : list string) : prog unit :=
  container_id ← sys Uuid4;
  pid ← sys Fork;
  (if bool_decide (pid = 0) then
     try_except
       (contain command image_name image_dir container_id container_dir)
       (λ e, if is_Exception e
             then sys (PrintExc e) ;; os__exit 1
             else Raise e)
   else Ret tt) ;;
  '(_, status) ← sys (Waitpid pid 0);
  sys (Print (str_of_int pid +:+ " exited with status "
              +:+ str_of_int status)).

End Overlay.
End Overlay.

(** ** A model of the file system *)

(** What a path names.  The model keeps one flat name space: paths are told
    apart as the strings the scripts pass, and a mount is recorded without
    changing what the paths below it name. *)
Inductive node :=
| Dir
| Reg
| Archive (members : list TarInfo)   (* a regular file holding a tar archive *)
| Lnk (target : string)
| Fifo
| Special (st_mode st_rdev : Z).     (* a device node: its mode and number *)

Record os_state := {
  fs : gmap string node;
  kernel_log : list call;            (* namespace and mount calls so far *)
  stdout : list string;
  stderr : list exn
}.

Definition set_fs (f : gmap string node → gmap string node) (st : os_state)
  : os_state :=
  {| fs := f (fs st); kernel_log := kernel_log st;
     stdout := stdout st; stderr := stderr st |}.

Definition log_kernel (c : call) (st : os_state) : os_state :=
  {| fs := fs st; kernel_log := kernel_log st ++ [c];
     stdout := stdout st; stderr := stderr st |}.

(** The proper ancestors of a path, the shortest first: the prefixes that
    end just before a separator, other than the empty one and those that
    themselves end with a separator. *)
Fixpoint parents_from (pre s : string) : list string :=
  match s with
  | EmptyString => []
  | String a s' =>
      (if bool_decide (a = "/"%char) && negb (bool_decide (pre = ""))
          && negb (endswith_sep pre)
       then [pre] else [])
      ++ parents_from (pre +:+ String a "") s'
  end.

Definition parents (p : string) : list string := parents_from "" p.

(** Create the missing ones among the given directories. *)
Definition mkmissing (dirs : list string) (m : gmap string node)
  : gmap string node :=
  foldl (λ m d, match m !! d with
                | None => <[d := Dir]> m
                | Some _ => m
                end) m dirs.

(** The effect of a successful [os.makedirs(p)]. *)
Definition mkdirs (p : string) (m : gmap string node) : gmap string node :=
  <[p := Dir]> (mkmissing (parents p) m).

(** What [TarFile.extract] creates for a member, by the member's type. *)
Definition node_of_member (m : TarInfo) : node :=
  if bool_decide (type m = tarfile.DIRTYPE) then Dir
  else if bool_decide (type m = tarfile.SYMTYPE) then Lnk (linkname m)
  else if bool_decide (type m = tarfile.CHRTYPE)
       then Special (Z.lor (mode m) stat.S_IFCHR)
                    (os_makedev (devmajor m) (devminor m))
  else if bool_decide (type m = tarfile.BLKTYPE)
       then Special (Z.lor (mode m) stat.S_IFBLK)
                    (os_makedev (devmajor m) (devminor m))
  else if bool_decide (type m = tarfile.FIFOTYPE) then Fifo
  else Reg.

Definition extract_member (dest : string) (m : TarInfo)
    (f : gmap string node) : gmap string node :=
  let target := os_path_join dest [name m] in
  <[target := node_of_member m]> (mkmissing (parents target) f).

(** The effect of a successful [TarFile.extractall(dest, members)]. *)
Definition extractall (dest : string) (members : list TarInfo)
    (f : gmap string node) : gmap string node :=
  foldl (λ f m, extract_member dest m f) f members.

(** The effect of a call that succeeds, [None] where the model has the call
    fail.  Process creation is outside this model: scripts that fork are
    studied on their traces ([runs]). *)
Definition sys_ok (st : os_state) (c : call) : option (ret c * os_state) :=
  match c return option (ret c * os_state) with
  | Exists p => Some (bool_decide (is_Some (fs st !! p)), st)
  | Makedirs p =>
      match fs st !! p with
      | None => Some (tt, set_fs (mkdirs p) st)
      | Some _ => None
      end
  | Rmdir p =>
      match fs st !! p with
      | Some Dir => Some (tt, set_fs (delete p) st)
      | _ => None
      end
  | Symlink src dst =>
      match fs st !! dst with
      | None => Some (tt, set_fs (insert dst (Lnk src)) st)
      | Some _ => None
      end
  | Mknod p mode device =>
      match fs st !! p with
      | None => Some (tt, set_fs (insert p (Special mode device)) st)
      | Some _ => None
      end
  | TarOpen p =>
      match fs st !! p with
      | Some (Archive _) => Some ({| tf_name := p |}, st)
      | _ => None
      end
  | GetMembers t =>
      match fs st !! tf_name t with
      | Some (Archive ms) => Some (ms, st)
      | _ => None
      end
  | ExtractAll t dest members =>
      Some (tt, set_fs (extractall dest members) st)
  | TarClose t => Some (tt, st)
  | Chdir p => Some (tt, st)
  | Unshare flags => Some (tt, log_kernel (Unshare flags) st)
  | Mount a b c d e => Some (tt, log_kernel (Mount a b c d e) st)
  | Umount2 a b => Some (tt, log_kernel (Umount2 a b) st)
  | PivotRoot a b => Some (tt, log_kernel (PivotRoot a b) st)
  | Print line =>
      Some (tt, {| fs := fs st; kernel_log := kernel_log st;
                   stdout := stdout st ++ [line]; stderr := stderr st |})
  | PrintExc e =>
      Some (tt, {| fs := fs st; kernel_log := kernel_log st;
                   stdout := stdout st; stderr := stderr st ++ [e] |})
  | Uuid4 | Fork | Waitpid _ _ | Execvp _ _ | Exit_ _ => None
  end.

(** One call against the model: it succeeds as [sys_ok] says, or it raises
    (for a reason the model may not know) and leaves the state as it was. *)
Definition sys_step (st : os_state) (c : call) (r : reply (ret c))
    (st' : os_state) : Prop :=
  match r with
  | Ok x => sys_ok st c = Some (x, st')
  | Err _ => fallible c = true ∧ st' = st
  end.

(** [runs_in st p tr o st']: started in [st], [p] has the trace [tr], ends
    as [o] and leaves [st']. *)
Fixpoint runs_in {A} (st : os_state) (p : prog A) (tr : list event)
    (o : outcome A) (st' : os_state) : Prop :=
  match p with
  | Ret a => tr = [] ∧ o = Returned a ∧ st' = st
  | Raise e => tr = [] ∧ o = Abort (Raised e) ∧ st' = st
  | Sys c k =>
      (∃ r st1 tr', sys_step st c r st1 ∧ tr = Ev c r :: tr'
                    ∧ runs_in st1 (k r) tr' o st')
      ∨ (∃ s, stop_of c = Some s ∧ tr = [Halt c] ∧ o = Abort s ∧ st' = st)
  end.

(** The exception a call raises when the model has it fail. *)
Definition default_error (c : call) : exn :=
  match c with
  | Unshare _ | Mount _ _ _ _ _ | Umount2 _ _ | PivotRoot _ _ =>
      RuntimeError "linux"
  | TarOpen _ => IOError "tarfile.open"
  | GetMembers _ | ExtractAll _ _ _ | TarClose _ => TarError "tarfile"
  | _ => OSError "os"
  end.

(** The run in which every call succeeds whenever the model lets it. *)
Fixpoint exec {A} (st : os_state) (p : prog A)
  : list event * outcome A * os_state :=
  match p with
  | Ret a => ([], Returned a, st)
  | Raise e => ([], Abort (Raised e), st)
  | Sys c k =>
      match stop_of c with
      | Some s => ([Halt c], Abort s, st)
      | None =>
          match sys_ok st c with
          | Some (x, st1) =>
              let '(tr, o, st') := exec st1 (k (Ok x)) in
              (Ev c (Ok x) :: tr, o, st')
          | None =>
              let '(tr, o, st') := exec st (k (Err (default_error c))) in
              (Ev c (Err (default_error c)) :: tr, o, st')
          end
      end
  end.

Definition empty_state : os_state :=
  {| fs := ∅; kernel_log := []; stdout := []; stderr := [] |}.

(** ** Vocabulary of the properties *)

Definition call_of (ev : event) : call :=
  match ev with
  | Ev c _ | Halt c => c
  end.

(** The mount calls of a trace, in order. *)
Definition mount_calls (tr : list event) : list call :=
  omap (λ ev, match call_of ev with
              | Mount a b c d e => Some (Mount a b c d e)
              | _ => None
              end) tr.

(** [runs_seq steps tr o]: the steps are run one after the other, each begun
    once the one before it has returned; the first step that does not return
    ends the run. *)
Fixpoint runs_seq (steps : list (prog unit)) (tr : list event)
    (o : outcome unit) : Prop :=
  match steps with
  | [] => tr = [] ∧ o = Returned tt
  | p :: rest =>
      (∃ t1 t2, runs p t1 (Returned tt) ∧ runs_seq rest t2 o ∧ tr = t1 ++ t2)
      ∨ (∃ s, runs p tr (Abort s) ∧ o = Abort s)
  end.

Arguments os_path_join : simpl never.
Arguments extsep_join : simpl never.
Arguments str_of_int : simpl never.
Arguments Overlay._get_image_path : simpl never.
Arguments Overlay._get_container_path : simpl never.
Arguments Overlay.overlay_options : simpl never.
Arguments Overlay.makedev : simpl never.
Arguments Overlay.create_container_root : simpl never.
Arguments Overlay._create_mounts : simpl never.
Arguments Overlay.contain : simpl never.
Arguments ForkExec.contain : simpl never.

(** A directory name to which [os.path.join] appends with a separator, and a
    path component that it appends as it is. *)
Definition directory (s : string) : Prop :=
  s ≠ "" ∧ endswith_sep s = false.

Definition component (s : string) : Prop :=
  s ≠ "" ∧ startswith_sep s = false ∧ endswith_sep s = false.

(** The [extractall] calls of a trace, and the member lists that
    [getmembers] returned in it. *)
Definition extract_calls (tr : list event) : list call :=
  omap (λ ev, match call_of ev with
              | ExtractAll t d ms => Some (ExtractAll t d ms)
              | _ => None
              end) tr.

Definition members_read_of (ev : event) : option (TarFile * list TarInfo) :=
  match ev with
  | Ev c r =>
      match c return reply (ret c) → option (TarFile * list TarInfo) with
      | GetMembers t => λ r, match r with
                             | Ok ms => Some (t, ms)
                             | Err _ => None
                             end
      | _ => λ _, None
      end r
  | Halt _ => None
  end.

Definition members_read (tr : list event) : list (TarFile * list TarInfo) :=
  omap members_read_of tr.

(** A call that only looks, prints, mounts, or adds directories and
    extracted members other than devices: it removes no entry and creates no
    device node. *)
Definition builds_only (c : call) : Prop :=
  match c with
  | Exists _ | Makedirs _ | TarOpen _ | GetMembers _ | TarClose _ | Print _
  | Mount _ _ _ _ _ => True
  | ExtractAll _ _ ms => Forall not_device ms
  | _ => False
  end.

(** The paths whose existence test answered no in a trace. *)
Definition denied_of (ev : event) : option string :=
  match ev with
  | Ev c r =>
      match c return reply (ret c) → option string with
      | Exists q => λ r, match r with
                         | Ok false => Some q
                         | _ => None
                         end
      | _ => λ _, None
      end r
  | Halt _ => None
  end.

Definition denied (tr : list event) : list string := omap denied_of tr.

(** The paths a trace has seen present: an existence test answered yes, or
    [os.makedirs] succeeded. *)
Definition present_of (ev : event) : option string :=
  match ev with
  | Ev c r =>
      match c return reply (ret c) → option string with
      | Exists q => λ r, match r with
                         | Ok true => Some q
                         | _ => None
                         end
      | Makedirs q => λ r, match r with
                           | Ok _ => Some q
                           | Err _ => None
                           end
      | _ => λ _, None
      end r
  | Halt _ => None
  end.

Definition present (tr : list event) : list string := omap present_of tr.

(** The calls of a trace other than existence tests and prints: those that
    may change the file system or the mount table. *)
Definition effects (tr : list event) : list call :=
  omap (λ ev, match call_of ev with
              | Exists _ | Print _ => None
              | c => Some c
              end) tr.

(** [ends s x]: the string [s] ends with [x]; [starts s r]: it begins with
    [r], as every path inside the tree of root [r] does. *)
Definition ends (s x : string) : Prop := ∃ pre, s = pre +:+ x.

Definition starts (s r : string) : Prop := ∃ rest, s = r +:+ rest.

(** A call that, in the model, leaves the entry at path [k] as it is. *)
Definition untouched_by (k : string) (c : call) : Prop :=
  match c with
  | Makedirs q => k ≠ q ∧ k ∉ parents q
  | Exists _ | Print _ | PrintExc _ | Mount _ _ _ _ _ | Unshare _
  | Umount2 _ _ | PivotRoot _ _ | Chdir _ | TarOpen _ | GetMembers _
  | TarClose _ => True
  | _ => False
  end.

(** [replays st tr st']: the calls of [tr], made from [st] with the replies
    of [tr], lead to [st']. *)
Fixpoint replays (st : os_state) (tr : list event) (st' : os_state) : Prop :=
  match tr with
  | [] => st' = st
  | Ev c r :: tr' => ∃ st1, sys_step st c r st1 ∧ replays st1 tr' st'
  | Halt c :: tr' => st' = st
  end.

(** The paths whose existence test answered yes in a trace. *)
Definition affirmed_of (ev : event) : option string :=
  match ev with
  | Ev c r =>
      match c return reply (ret c) → option string with
      | Exists q => λ r, match r with
                         | Ok true => Some q
                         | _ => None
                         end
      | _ => λ _, None
      end r
  | Halt _ => None
  end.

Definition affirmed (tr : list event) : list string := omap affirmed_of tr.

(** An event whose call returned. *)
Definition returned (ev : event) : Prop :=
  match ev with
  | Ev _ (Ok _) => True
  | _ => False
  end.

(** What the device population step is to leave under root/dev, as the
    specification lists it: four symbolic links with their targets, and
    seven character devices with their (major, minor) numbers. *)
Definition dev_symlinks : list (string * string) :=
  [("stdin", "/proc/self/fd/0"); ("stdout", "/proc/self/fd/1");
   ("stderr", "/proc/self/fd/2"); ("fd", "/proc/self/fd")].

Definition dev_nodes : list (string * (Z * Z)) :=
  [("null", (1, 3)); ("zero", (1, 5)); ("random", (1, 8));
   ("urandom", (1, 9)); ("console", (136, 1)); ("tty", (5, 0));
   ("full", (1, 7))].

(** The call that creates a listed link, and the call that creates a listed
    device node with mode 0666 (octal). *)
Definition symlink_call (dev_path : string) (l : string * string) : call :=
  Symlink l.2 (os_path_join dev_path [l.1]).

Definition mknod_call (dev_path : string) (d : string * (Z * Z)) : call :=
  Mknod (os_path_join dev_path [d.1]) (Z.lor 0x1b6 stat.S_IFCHR)
        (os_makedev d.2.1 d.2.2).

(** The device nodes in the order in which the dictionary yields them, and
    the calls of a complete run of [makedev]. *)
Definition yielded_nodes `{DictOrder} : list (string * (Z * Z)) :=
  (λ d, (d.1, (d.2.1.2, d.2.2))) <$> iteritems Overlay.DEVICES.

Definition makedev_calls `{DictOrder} (dev_path : string) : list call :=
  (symlink_call dev_path <$> dev_symlinks)
  ++ (mknod_call dev_path <$> yielded_nodes).

(** The calls of [makedev] in the order of the specification's lists. *)
Definition dev_calls (dev_path : string) : list call :=
  (symlink_call dev_path <$> dev_symlinks)
  ++ (mknod_call dev_path <$> dev_nodes).

(** The entry a call creates when it succeeds, for the two calls of
    [makedev]. *)
Definition create_entry (c : call) : option (string * node) :=
  match c with
  | Symlink src dst => Some (dst, Lnk src)
  | Mknod p mode device => Some (p, Special mode device)
  | _ => None
  end.

(** What [os.lstat] tells about an entry. *)
Inductive kind :=
| Directory
| SymbolicLink (target : string)
| CharDevice (perm major minor : Z)
| OtherKind.

Definition kind_of (v : node) : kind :=
  match v with
  | Dir => Directory
  | Lnk target => SymbolicLink target
  | Special st_mode st_rdev =>
      if bool_decide (stat.S_IFMT st_mode = stat.S_IFCHR)
      then CharDevice (stat.S_IMODE st_mode) (os_major st_rdev)
                      (os_minor st_rdev)
      else OtherKind
  | _ => OtherKind
  end.

(** The eleven entries, by name. *)
Definition dev_entries : list (string * kind) :=
  ((λ l, (l.1, SymbolicLink l.2)) <$> dev_symlinks)
  ++ ((λ d, (d.1, CharDevice 0x1b6 d.2.1 d.2.2)) <$> dev_nodes).

(** [os.listdir]: the names of the entries directly inside a directory. *)
Definition dir_prefix (d : string) : string :=
  if bool_decide (d = "") || endswith_sep d then d else d +:+ "/".

Fixpoint strip_prefix (p s : string) : option string :=
  match p, s with
  | EmptyString, _ => Some s
  | String a p', String b s' =>
      if bool_decide (a = b) then strip_prefix p' s' else None
  | String _ _, EmptyString => None
  end.

Fixpoint has_sep (s : string) : bool :=
  match s with
  | EmptyString => false
  | String a s' => bool_decide (a = "/"%char) || has_sep s'
  end.

Definition entry_name (n : string) : Prop := n ≠ "" ∧ has_sep n = false.

#[export] Instance entry_name_dec n : Decision (entry_name n).
Proof. unfold entry_name. apply _. Defined.

Definition listdir (d : string) (st : os_state) : list string :=
  omap (λ kv, match strip_prefix (dir_prefix d) kv.1 with
              | Some n => if decide (entry_name n) then Some n else None
              | None => None
              end) (map_to_list (fs st)).

(** The nine steps of the containment entry point in the order of the
    specification (1 unshare, 2 private remount of '/', 3 build the layered
    root, 4 populate it, 5 make old_root, 6 pivot, 7 chdir, 8 lazy unmount
    of /old_root and removal of its directory, 9 exec), with the status line
    the script prints between steps 3 and 4.  The root is the merged
    directory of the container. *)
Definition contain_steps `{LinuxModule} `{DictOrder} (command : list string)
    (image_name image_dir container_id container_dir : string)
  : list (prog unit) :=
  let root := os_path_join container_dir ["overlay"; container_id; "merged"] in
  let old_root := os_path_join root ["old_root"] in
  [ sys (Unshare CLONE_NEWNS);
    sys (Mount None "/" None (Z.lor MS_PRIVATE MS_REC) None);
    Overlay.create_container_root image_name image_dir container_id
      container_dir ;; Ret tt;
    sys (Print ("Created a new root fs for our container: " +:+ root));
    Overlay._create_mounts root;
    sys (Makedirs old_root);
    sys (PivotRoot root old_root);
    sys (Chdir "/");
    sys (Umount2 "/old_root" MNT_DETACH);
    sys (Rmdir "/old_root");
    match command with
    | [] => Raise (IndexError "tuple index out of range")
    | file :: _ => os_execvp file command
    end ].

(** The trace of a run of the nine steps that reaches the exec, given the
    traces of steps 3 and 4. *)
Definition contain_trace `{LinuxModule} (command : list string)
    (file : string) (container_id container_dir : string)
    (tr3 tr4 : list event) : list event :=
  let root := os_path_join container_dir ["overlay"; container_id; "merged"] in
  let old_root := os_path_join root ["old_root"] in
  [ Ev (Unshare CLONE_NEWNS) (Ok tt);
    Ev (Mount None "/" None (Z.lor MS_PRIVATE MS_REC) None) (Ok tt) ]
  ++ tr3
  ++ [ Ev (Print ("Created a new root fs for our container: " +:+ root))
          (Ok tt) ]
  ++ tr4
  ++ [ Ev (Makedirs old_root) (Ok tt);
       Ev (PivotRoot root old_root) (Ok tt);
       Ev (Chdir "/") (Ok tt);
       Ev (Umount2 "/old_root" MNT_DETACH) (Ok tt);
       Ev (Rmdir "/old_root") (Ok tt);
       Halt (Execvp file command) ].

(** The replies of successful forks in a trace, and the statuses that
    successful waits returned. *)
Definition fork_of (ev : event) : option Z :=
  match ev with
  | Ev c r =>
      match c return reply (ret c) → option Z with
      | Fork => λ r, match r with Ok pid => Some pid | Err _ => None end
      | _ => λ _, None
      end r
  | Halt _ => None
  end.

Definition forked (tr : list event) : list Z := omap fork_of tr.

Definition status_of (ev : event) : option Z :=
  match ev with
  | Ev c r =>
      match c return reply (ret c) → option Z with
      | Waitpid _ _ => λ r, match r with
                            | Ok (_, status) => Some status
                            | Err _ => None
                            end
      | _ => λ _, None
      end r
  | Halt _ => None
  end.

Definition statuses (tr : list event) : list Z := omap status_of tr.

(** What follows the first successful fork of a trace. *)
Fixpoint after_fork (tr : list event) : option (Z * list event) :=
  match tr with
  | [] => None
  | ev :: tr' =>
      match fork_of ev with
      | Some pid => Some (pid, tr')
      | None => after_fork tr'
      end
  end.

(** The two reports of the supervisor, read on the traces of a script: in
    the parent, the event right after the fork prints the child's PID; and
    once the wait has returned a status, the trace ends with the print of
    the PID and of that status as it was returned. *)
Definition prints_pid_after_fork (p : prog unit) : Prop :=
  ∀ tr o pid rest,
    runs p tr o → after_fork tr = Some (pid, rest) → pid ≠ 0 →
    head rest = Some (Ev (Print (str_of_int pid)) (Ok tt)).

Definition prints_status_after_wait (p : prog unit) : Prop :=
  ∀ tr o pid rest status,
    runs p tr o → after_fork tr = Some (pid, rest) → pid ≠ 0 →
    status ∈ statuses rest →
    last rest
    = Some (Ev (Print (str_of_int pid +:+ " exited with status "
                       +:+ str_of_int status)) (Ok tt)).

(** ** Sample inputs *)

(** An image archive with a directory, a file, a symbolic link and two
    device entries. *)
Definition demo_members : list TarInfo :=
  [ {| name := "bin"; type := tarfile.DIRTYPE; mode := 0x1ed;
       linkname := ""; devmajor := 0; devminor := 0 |};
    {| name := "bin/sh"; type := tarfile.REGTYPE; mode := 0x1ed;
       linkname := ""; devmajor := 0; devminor := 0 |};
    {| name := "dev/null"; type := tarfile.CHRTYPE; mode := 0x1b6;
       linkname := ""; devmajor := 1; devminor := 3 |};
    {| name := "dev/sda"; type := tarfile.BLKTYPE; mode := 0x1b0;
       linkname := ""; devmajor := 8; devminor := 0 |};
    {| name := "lib"; type := tarfile.SYMTYPE; mode := 0x1ff;
       linkname := "usr/lib"; devmajor := 0; devminor := 0 |} ].

Definition demo_state : os_state :=
  {| fs := list_to_map
             [("/workshop", Dir); ("/workshop/images", Dir);
              ("/workshop/containers", Dir);
              ("/workshop/images/ubuntu.tar", Archive demo_members)];
     kernel_log := []; stdout := []; stderr := [] |}.

(** The first run of level 04's [create_container_root] in [demo_state]. *)
Definition demo_root_run : list event * outcome string * os_state :=
  exec demo_state
    (Overlay.create_container_root (H := kernel_headers)
       "ubuntu" "/workshop/images" "c1" "/workshop/containers").

(** A second container made from the same image, once the first run has
    extracted it. *)
Definition demo_second_run : list event * outcome string * os_state :=
  exec demo_root_run.2
    (Overlay.create_container_root (H := kernel_headers)
       "ubuntu" "/workshop/images" "c2" "/workshop/containers").

(** A run for an image whose archive is not there. *)
Definition demo_missing_run : list event * outcome string * os_state :=
  exec demo_state
    (Overlay.create_container_root (H := kernel_headers)
       "debian" "/workshop/images" "c1" "/workshop/containers").

(** The device population step on the merged root of the first run. *)
Definition demo_makedev_run : list event * outcome unit * os_state :=
  exec demo_root_run.2
    (Overlay.makedev (H0 := display_order)
       "/workshop/containers/overlay/c1/merged/dev").

(** The root population step on the merged root of the first run, and the
    same step once more on the root it has populated. *)
Definition demo_mounts_run : list event * outcome unit * os_state :=
  exec demo_root_run.2
    (Overlay._create_mounts (H := kernel_headers) (H0 := display_order)
       "/workshop/containers/overlay/c1/merged").

Definition demo_mounts_again : list event * outcome unit * os_state :=
  exec demo_mounts_run.2
    (Overlay._create_mounts (H := kernel_headers) (H0 := display_order)
       "/workshop/containers/overlay/c1/merged").

(** A run of level 04's [contain] that reaches the exec. *)
Definition demo_command : list string := ["/bin/sh"].

Definition demo_contain_trace : list event :=
  contain_trace (H := kernel_headers) demo_command "/bin/sh" "c1"
    "/workshop/containers" demo_root_run.1.1 demo_mounts_run.1.1.

(** The child of a run of level 04's [run] for the image that is not
    there, and the parent of a run whose child got the PID 4242 and ended
    with exit code 1 (wait status 256). *)
Definition demo_failed_contain : list event * outcome unit * os_state :=
  exec demo_state
    (Overlay.contain (H := kernel_headers) (H0 := display_order)
       demo_command "debian" "/workshop/images" "c1" "/workshop/containers").

Definition demo_child_trace : list event :=
  Ev Uuid4 (Ok "c1") :: Ev Fork (Ok 0)
  :: demo_failed_contain.1.1
  ++ [Ev (PrintExc (AssertionError "unable to locate image debian")) (Ok tt);
      Halt (Exit_ 1)].

Definition demo_parent_trace : list event :=
  [Ev Uuid4 (Ok "c1"); Ev Fork (Ok 4242);
   Ev (Waitpid 4242 0) (Ok (4242, 256));
   Ev (Print "4242 exited with status 256") (Ok tt)].

(** * Properties *)

(** ** Traces of composed scripts *)

Lemma runs_bind {A B} (p : prog A) (f : A → prog B) tr o :
  runs (p ≫= f) tr o ↔
    (∃ a t1 t2, runs p t1 (Returned a) ∧ runs (f a) t2 o ∧ tr = t1 ++ t2)
    ∨ (∃ s, runs p tr (Abort s) ∧ o = Abort s).
Proof.
  unfold mbind, prog_bind. revert tr.
  induction p as [a | e | c k IH]; intros tr; simpl.
  - split.
    + intros Hf. left. exists a, [], tr. eauto.
    + intros [(a' & t1 & t2 & [-> Ha] & Hf & ->) | (s & [_ Hs] & _)];
        [by simplify_eq | done].
  - split.
    + intros [-> ->]. right. eauto.
    + intros [(a' & t1 & t2 & [_ Ha] & _) | (s & [-> Hs] & ->)];
        [done | by simplify_eq].
  - split.
    + intros [(r & tr' & Hm & -> & Hk) | (s & Hs & -> & ->)].
      * apply IH in Hk as [(a & t1 & t2 & H1 & H2 & ->) | (s & H1 & ->)].
        -- left. exists a, (Ev c r :: t1), t2. split_and!; [|done..].
           left. eauto.
        -- right. exists s. split; [|done]. left. eauto.
      * right. exists s. split; [|done]. right. eauto.
    + intros [(a & t1 & t2 & H1 & H2 & ->) | (s & H1 & ->)].
      * destruct H1 as [(r & tr' & Hm & -> & Hk) | (s & _ & _ & ?)]; [|done].
        left. exists r, (tr' ++ t2). split_and!; [done..|].
        apply IH. left. eauto 10.
      * destruct H1 as [(r & tr' & Hm & -> & Hk) | (s' & Hs & -> & ?)].
        -- left. exists r, tr'. split_and!; [done..|]. apply IH. eauto.
        -- simplify_eq. right. eauto.
Qed.

Lemma runs_sys c tr o :
  runs (sys c) tr o ↔
    (∃ x, tr = [Ev c (Ok x)] ∧ o = Returned x)
    ∨ (∃ e, fallible c = true ∧ tr = [Ev c (Err e)] ∧ o = Abort (Raised e))
    ∨ (∃ s, stop_of c = Some s ∧ tr = [Halt c] ∧ o = Abort s).
Proof.
  unfold sys; simpl. split.
  - intros [(r & tr' & Hm & -> & Hk) | ?]; [|eauto].
    destruct r as [x | e]; simpl in *; destruct Hk as [-> ->]; eauto 10.
  - intros [(x & -> & ->) | [(e & ? & -> & ->) | ?]]; [| |eauto].
    + left. by exists (Ok x), [].
    + left. by exists (Err e), [].
Qed.

(** A script followed by another that returns nothing new. *)
Lemma runs_then {A B} (p : prog A) (q : prog B) tr o :
  runs (p ;; q) tr o ↔
    (∃ a t1 t2, runs p t1 (Returned a) ∧ runs q t2 o ∧ tr = t1 ++ t2)
    ∨ (∃ s, runs p tr (Abort s) ∧ o = Abort s).
Proof. apply runs_bind. Qed.

Lemma runs_try_except {A} (p : prog A) h tr o :
  runs (try_except p h) tr o ↔
    (∃ a, runs p tr (Returned a) ∧ o = Returned a)
    ∨ (∃ e t1 t2, runs p t1 (Abort (Raised e)) ∧ runs (h e) t2 o
                  ∧ tr = t1 ++ t2)
    ∨ (∃ s, (∀ e, s ≠ Raised e) ∧ runs p tr (Abort s) ∧ o = Abort s).
Proof.
  revert tr. induction p as [a | e | c k IH]; intros tr; simpl.
  - split.
    + intros [-> ->]. eauto.
    + intros [(a' & [-> ?] & ->) | [(e & t1 & t2 & [_ ?] & _)
                                   | (s & _ & [_ ?] & _)]]; by simplify_eq.
  - split.
    + intros Hh. right; left. exists e, [], tr. eauto.
    + intros [(a' & [_ ?] & _) | [(e' & t1 & t2 & [-> ?] & Hh & ->)
                                 | (s & Hs & [_ ?] & _)]]; simplify_eq; [done|].
      by destruct (Hs e).
  - split.
    + intros [(r & tr' & Hm & -> & Hk) | (s & Hs & -> & ->)].
      * apply IH in Hk as [(a & H1 & ->) | [(e & t1 & t2 & H1 & H2 & ->)
                                           | (s & Hs & H1 & ->)]].
        -- left. exists a. split; [|done]. left. eauto.
        -- right; left. exists e, (Ev c r :: t1), t2. split_and!; [|done..].
           left. eauto.
        -- right; right. exists s. split_and!; [done| |done]. left. eauto.
      * right; right. exists s. split_and!; [| right; eauto | done].
        intros e ->. by destruct c.
    + intros [(a & H1 & ->) | [(e & t1 & t2 & H1 & H2 & ->)
                              | (s & Hs & H1 & ->)]].
      * destruct H1 as [(r & tr' & Hm & -> & Hk) | (s & _ & _ & ?)]; [|done].
        left. exists r, tr'. split_and!; [done..|]. apply IH. eauto.
      * destruct H1 as [(r & tr' & Hm & -> & Hk) | (s & Hs & -> & ?)].
        -- left. exists r, (tr' ++ t2). split_and!; [done..|].
           apply IH. right; left. eauto 10.
        -- simplify_eq. by destruct c.
      * destruct H1 as [(r & tr' & Hm & -> & Hk) | (s' & Hs' & -> & ?)].
        -- left. exists r, tr'. split_and!; [done..|]. apply IH. eauto 10.
        -- simplify_eq. right. eauto.
Qed.

Lemma runs_try_finally {A} (p : prog A) f tr o :
  runs (try_finally p f) tr o ↔
    (∃ a t1 t2, runs p t1 (Returned a) ∧ runs (f ;; Ret a) t2 o
                ∧ tr = t1 ++ t2)
    ∨ (∃ e t1 t2, runs p t1 (Abort (Raised e)) ∧ runs (f ;; Raise e) t2 o
                  ∧ tr = t1 ++ t2)
    ∨ (∃ s, (∀ e, s ≠ Raised e) ∧ runs p tr (Abort s) ∧ o = Abort s).
Proof.
  revert tr. induction p as [a | e | c k IH]; intros tr.
  - simpl. split.
    + intros Hf. left. exists a, [], tr. eauto.
    + intros [(a' & t1 & t2 & [-> ?] & Hf & ->)
             | [(e & t1 & t2 & [_ ?] & _) | (s & _ & [_ ?] & _)]];
        by simplify_eq.
  - simpl. split.
    + intros Hf. right; left. exists e, [], tr. eauto.
    + intros [(a' & t1 & t2 & [_ ?] & _)
             | [(e' & t1 & t2 & [-> ?] & Hf & ->) | (s & Hs & [_ ?] & _)]];
        simplify_eq; [done|].
      by destruct (Hs e).
  - change (runs (try_finally (Sys c k) f) tr o)
      with ((∃ r tr', may_reply c r ∧ tr = Ev c r :: tr'
                      ∧ runs (try_finally (k r) f) tr' o)
            ∨ (∃ s, stop_of c = Some s ∧ tr = [Halt c] ∧ o = Abort s)).
    split.
    + intros [(r & tr' & Hm & -> & Hk) | (s & Hs & -> & ->)].
      * apply IH in Hk as [(a & t1 & t2 & H1 & H2 & ->)
                          | [(e & t1 & t2 & H1 & H2 & ->)
                            | (s & Hs & H1 & ->)]].
        -- left. exists a, (Ev c r :: t1), t2. split_and!; [|done..].
           left. eauto.
        -- right; left. exists e, (Ev c r :: t1), t2. split_and!; [|done..].
           left. eauto.
        -- right; right. exists s. split_and!; [done| |done]. left. eauto.
      * right; right. exists s. split_and!; [| right; eauto | done].
        intros e ->. by destruct c.
    + intros [(a & t1 & t2 & H1 & H2 & ->)
             | [(e & t1 & t2 & H1 & H2 & ->) | (s & Hs & H1 & ->)]].
      * destruct H1 as [(r & tr' & Hm & -> & Hk) | (s & _ & _ & ?)]; [|done].
        left. exists r, (tr' ++ t2). split_and!; [done..|].
        apply IH. left. eauto 10.
      * destruct H1 as [(r & tr' & Hm & -> & Hk) | (s & Hs & -> & ?)].
        -- left. exists r, (tr' ++ t2). split_and!; [done..|].
           apply IH. right; left. eauto 10.
        -- simplify_eq. by destruct c.
      * destruct H1 as [(r & tr' & Hm & -> & Hk) | (s' & Hs' & -> & ?)].
        -- left. exists r, tr'. split_and!; [done..|]. apply IH. eauto 10.
        -- simplify_eq. right. eauto.
Qed.

(** Taking a run apart, statement by statement.  Scripts the tactic does
    not know (a loop, a function kept folded) are left as hypotheses. *)
Ltac inv_runs H :=
  cbv beta zeta in H;
  lazymatch type of H with
  | runs (mbind _ _) _ _ =>
      let H1 := fresh "Hp" in
      let H2 := fresh "Hk" in
      apply runs_bind in H as [(? & ? & ? & H1 & H2 & ->) | (? & H1 & ?)];
      [ inv_runs H1; inv_runs H2 | simplify_eq; inv_runs H1 ]
  | runs (try_finally _ _) _ _ =>
      let H1 := fresh "Hp" in
      let H2 := fresh "Hk" in
      apply runs_try_finally in H
        as [(? & ? & ? & H1 & H2 & ->)
           | [(? & ? & ? & H1 & H2 & ->) | (? & ? & H1 & ?)]];
      [ inv_runs H1; inv_runs H2
      | inv_runs H1; inv_runs H2
      | simplify_eq; inv_runs H1 ]
  | runs (try_except _ _) _ _ =>
      let H1 := fresh "Hp" in
      let H2 := fresh "Hk" in
      apply runs_try_except in H
        as [(? & H1 & ?)
           | [(? & ? & ? & H1 & H2 & ->) | (? & ? & H1 & ?)]];
      [ simplify_eq; inv_runs H1
      | inv_runs H1; inv_runs H2
      | simplify_eq; inv_runs H1 ]
  | runs (sys _) _ _ =>
      let x := fresh "x" in
      let Hf := fresh "Hf" in
      apply runs_sys in H
        as [(x & -> & H) | [(? & Hf & -> & H) | (? & Hf & -> & H)]];
      [ try (by destruct x); simplify_eq
      | simpl in Hf; first [discriminate Hf | clear Hf; simplify_eq]
      | simpl in Hf; simplify_eq ]
  | runs (Ret _) _ _ => destruct H as [-> H]; simplify_eq
  | runs (Raise _) _ _ => destruct H as [-> H]; simplify_eq
  | runs (if negb ?b then _ else _) _ _ =>
      destruct b; simpl negb in H; cbv iota in H; inv_runs H
  | runs (if bool_decide ?P then _ else _) _ _ =>
      destruct (bool_decide_reflect P); inv_runs H
  | runs (if is_Exception ?e then _ else _) _ _ =>
      destruct (is_Exception e) eqn:?; inv_runs H
  | runs (assert_ ?b _) _ _ => destruct b; unfold assert_ in H; inv_runs H
  | runs (with_tarfile_open _ _) _ _ =>
      unfold with_tarfile_open in H; inv_runs H
  | runs (os_execvp _ _) _ _ => unfold os_execvp in H; inv_runs H
  | runs (os__exit _) _ _ => unfold os__exit in H; inv_runs H
  | runs (let '(_, _) := ?x in _) _ _ => destruct x; inv_runs H
  | _ => idtac
  end.

Ltac runs_split H :=
  inv_runs H; simpl app in *;
  repeat match goal with u : unit |- _ => destruct u end.

(** Taking a run of straight-line code apart, call by call. *)
Ltac runs_case H :=
  lazymatch type of H with
  | (∃ r tr', may_reply _ r ∧ _ = Ev _ r :: tr' ∧ _) ∨ _ =>
      let r := fresh "r" in
      let tr' := fresh "tr" in
      let Hm := fresh "Hm" in
      let s := fresh "s" in
      let Hs := fresh "Hs" in
      destruct H as [(r & tr' & Hm & -> & H) | (s & Hs & -> & ->)];
      [ destruct r as [r | r]; simpl in Hm, H; try discriminate Hm
      | simpl in Hs; simplify_eq ]
  | _ = [] ∧ _ = _ => destruct H as [-> ->]
  | context [if negb ?b then _ else _] => destruct b; simpl in H
  | context [assert_ ?b _] => destruct b; simpl in H
  | context [bool_decide ?P] => destruct (bool_decide_reflect P); simpl in H
  end.

(** The goal is folded away while the run is taken apart. *)
Ltac runs_inv_var H :=
  lazymatch type of H with
  | runs _ ?tr ?o =>
      pattern tr, o;
      lazymatch goal with
      | |- ?P tr o =>
          let Q := fresh "Q" in
          set (Q := P);
          simpl in H; repeat runs_case H;
          repeat match goal with u : unit |- _ => destruct u end;
          subst Q; cbv beta
      end
  end.

Ltac runs_inv H :=
  lazymatch type of H with
  | runs _ _ ?o =>
      tryif is_var o then runs_inv_var H
      else (let o' := fresh "o" in
            let E := fresh "E" in
            remember o as o' eqn:E in H; runs_inv_var H; simplify_eq)
  end.

(** Membership in a list that is written out. *)
Ltac solve_elem_of :=
  first [ apply list_elem_of_here
        | apply list_elem_of_further; solve_elem_of ].

(** ** Strings and paths *)

Lemma append_cons x (a b : string) : String x a +:+ b = String x (a +:+ b).
Proof. reflexivity. Qed.

Lemma append_assoc (a b c : string) : (a +:+ b) +:+ c = a +:+ (b +:+ c).
Proof.
  induction a as [|x a IH]; [done|]. rewrite !append_cons. by f_equal.
Qed.

Lemma append_nil_r (a : string) : a +:+ "" = a.
Proof.
  induction a as [|x a IH]; [done|]. rewrite append_cons. by f_equal.
Qed.

Lemma append_eq_nil (a b : string) : a +:+ b = "" → a = "" ∧ b = "".
Proof. by destruct a. Qed.

Lemma endswith_sep_app (a b : string) :
  b ≠ "" → endswith_sep (a +:+ b) = endswith_sep b.
Proof.
  intros Hb. induction a as [|x a IH]; [done|].
  rewrite append_cons. simpl.
  destruct (a +:+ b) eqn:E; [|done].
  by apply append_eq_nil in E as [_ ?].
Qed.

Lemma join2_directory (path b : string) :
  directory path → startswith_sep b = false →
  join2 path b = path +:+ "/" +:+ b.
Proof.
  intros [Hne Hend] Hb. unfold join2. rewrite Hb, Hend.
  by rewrite bool_decide_eq_false_2.
Qed.

Lemma directory_app (a b : string) :
  b ≠ "" → endswith_sep b = false → directory (a +:+ b).
Proof.
  intros Hb He. split.
  - intros [_ ?]%append_eq_nil. done.
  - by rewrite endswith_sep_app.
Qed.

Lemma directory_sep_component (p c : string) :
  component c → directory (p +:+ "/" +:+ c).
Proof.
  intros (Hc0 & Hc1 & Hc2). apply directory_app; [done|].
  by rewrite (endswith_sep_app "/" c).
Qed.

(** On well-formed names [os.path.join] is concatenation with separators. *)
Lemma os_path_join_3 (d a b c : string) :
  directory d → component a → component b → component c →
  os_path_join d [a; b; c] = d +:+ "/" +:+ a +:+ "/" +:+ b +:+ "/" +:+ c.
Proof.
  intros Hd Ha Hb Hc.
  unfold os_path_join; simpl.
  rewrite (join2_directory d a); [|done|apply Ha].
  rewrite (join2_directory _ b);
    [|by apply directory_sep_component|apply Hb].
  rewrite (join2_directory _ c);
    [|by apply directory_sep_component|apply Hc].
  by rewrite !append_assoc.
Qed.

Lemma length_append (a b : string) :
  String.length (a +:+ b) = (String.length a + String.length b)%nat.
Proof.
  induction a as [|x a IH]; [done|]. rewrite append_cons. simpl. by f_equal.
Qed.

(** Two strings that end with different words of one length differ. *)
Lemma append_inj_2 (a1 a2 b1 b2 : string) :
  String.length b1 = String.length b2 →
  a1 +:+ b1 = a2 +:+ b2 → b1 = b2.
Proof.
  intros Hlen. revert a2.
  induction a1 as [|x a1 IH]; intros [|y a2] Heq.
  - done.
  - change ("" +:+ b1) with b1 in Heq. subst b1.
    rewrite append_cons in Hlen. simpl in Hlen.
    rewrite length_append in Hlen. lia.
  - change ("" +:+ b2) with b2 in Heq. subst b2.
    rewrite append_cons in Hlen. simpl in Hlen.
    rewrite length_append in Hlen. lia.
  - rewrite !append_cons in Heq. injection Heq as _ Heq. by eapply IH.
Qed.

Lemma join2_suffix (p b : string) : ∃ pre, join2 p b = pre +:+ b.
Proof.
  unfold join2. destruct (startswith_sep b).
  - by exists "".
  - destruct (_ || _).
    + by exists p.
    + exists (p +:+ "/"). by rewrite append_assoc.
Qed.

Lemma os_path_join_snoc (a : string) l b :
  os_path_join a (l ++ [b]) = join2 (os_path_join a l) b.
Proof. unfold os_path_join. by rewrite foldl_app. Qed.

(** A joined path ends with its last component. *)
Lemma os_path_join_suffix (a : string) l b :
  ∃ pre, os_path_join a (l ++ [b]) = pre +:+ b.
Proof. rewrite os_path_join_snoc. apply join2_suffix. Qed.

Lemma suffix_neq (s s' pre pre' x y : string) :
  s = pre +:+ x → s' = pre' +:+ y →
  String.length x = String.length y → x ≠ y → s ≠ s'.
Proof.
  intros -> -> Hlen Hne Heq. by apply append_inj_2 in Heq.
Qed.

Lemma elem_of_denied (tr : list event) q :
  Ev (Exists q) (Ok false) ∈ tr ↔ q ∈ denied tr.
Proof.
  unfold denied. rewrite list_elem_of_omap. split.
  - intros Hin. by exists (Ev (Exists q) (Ok false)).
  - intros (ev & Hin & Hm). destruct ev as [c r|c]; [|done].
    destruct c; try done. destruct r as [[]|]; try done. by simplify_eq/=.
Qed.

Lemma elem_of_effects (tr : list event) ev :
  ev ∈ tr →
  (∃ q, call_of ev = Exists q) ∨ (∃ l, call_of ev = Print l)
  ∨ call_of ev ∈ effects tr.
Proof.
  intros Hin. destruct (call_of ev) eqn:E; eauto.
  all: right; right; unfold effects; apply list_elem_of_omap;
    exists ev; by rewrite E.
Qed.

Lemma elem_of_mount_calls (tr : list event) ev a b c d e :
  ev ∈ tr → call_of ev = Mount a b c d e → Mount a b c d e ∈ mount_calls tr.
Proof.
  intros Hin Hc. unfold mount_calls. apply list_elem_of_omap.
  exists ev. split; [done|]. by rewrite Hc.
Qed.

(** ** The three semantics agree *)

Lemma runs_in_runs {A} (p : prog A) st tr o st' :
  runs_in st p tr o st' → runs p tr o.
Proof.
  revert st tr. induction p as [a | e | c k IH]; intros st tr; simpl.
  - intros (-> & -> & _). done.
  - intros (-> & -> & _). done.
  - intros [(r & st1 & tr' & Hs & -> & Hk) | (s & Hs & -> & -> & _)].
    + left. exists r, tr'. split_and!; [|done|by eapply IH].
      destruct r; simpl in *; [done | apply Hs].
    + right. eauto.
Qed.

Lemma sys_ok_None_fallible st c :
  stop_of c = None → sys_ok st c = None → fallible c = true.
Proof. by destruct c. Qed.

Lemma exec_runs_in {A} (p : prog A) st tr o st' :
  exec st p = (tr, o, st') → runs_in st p tr o st'.
Proof.
  revert st tr. induction p as [a | e | c k IH]; intros st tr; simpl.
  - intros [= <- <- <-]. done.
  - intros [= <- <- <-]. done.
  - destruct (stop_of c) as [s|] eqn:Hs.
    { intros [= <- <- <-]. right. eauto. }
    destruct (sys_ok st c) as [[x st1]|] eqn:Hok.
    + destruct (exec st1 (k (Ok x))) as [[tr1 o1] st1'] eqn:Hk.
      intros [= <- <- <-]. left. exists (Ok x), st1, tr1.
      split_and!; [done..|]. by apply IH.
    + destruct (exec st (k (Err (default_error c)))) as [[tr1 o1] st1'] eqn:Hk.
      intros [= <- <- <-]. left. exists (Err (default_error c)), st, tr1.
      split_and!; [|done|by apply IH].
      split; [|done]. by eapply sys_ok_None_fallible.
Qed.

Lemma exec_runs {A} (p : prog A) st tr o st' :
  exec st p = (tr, o, st') → runs p tr o.
Proof. intros Hx. eapply runs_in_runs, exec_runs_in, Hx. Qed.

Lemma exec_runs_in_self {A} (p : prog A) st :
  runs_in st p (exec st p).1.1 (exec st p).1.2 (exec st p).2.
Proof. apply exec_runs_in. by destruct (exec st p) as [[??]?]. Qed.

(** Building a run call by call. *)
Lemma runs_cons {A} c (k : reply (ret c) → prog A) r tr o :
  may_reply c r → runs (k r) tr o → runs (Sys c k) (Ev c r :: tr) o.
Proof. intros Hm Hk. left. by exists r, tr. Qed.

Lemma runs_halt {A} c (k : reply (ret c) → prog A) s :
  stop_of c = Some s → runs (Sys c k) [Halt c] (Abort s).
Proof. intros Hs. right. by exists s. Qed.

(** Checking that a script has a given trace: each event of the trace is
    matched against the next call of the script. *)
Ltac replay :=
  lazymatch goal with
  | |- runs ?p ?tr ?o =>
      let p' := eval hnf in p in
      lazymatch p' with
      | Sys ?c ?k =>
          lazymatch tr with
          | [Halt _] => exact (runs_halt c k _ eq_refl)
          | Ev _ ?r :: ?t =>
              refine (runs_cons c k r t o _ _);
              [ first [exact I | reflexivity] | replay ]
          end
      | _ => split; reflexivity
      end
  end.

Ltac replay_trace tr :=
  let t := eval vm_compute in tr in change tr with t; replay.


(** ** Device nodes in the file-system model *)

Lemma mkmissing_lookup_special dirs (m : gmap string node) p a b :
  mkmissing dirs m !! p = Some (Special a b) → m !! p = Some (Special a b).
Proof.
  unfold mkmissing. revert m.
  induction dirs as [|d dirs IH]; intros m; simpl; [done|].
  intros Hl%IH. destruct (m !! d) eqn:E; [done|].
  rewrite lookup_insert in Hl. case_decide; by simplify_eq.
Qed.

Lemma mkdirs_lookup_special q (m : gmap string node) p a b :
  mkdirs q m !! p = Some (Special a b) → m !! p = Some (Special a b).
Proof.
  unfold mkdirs. rewrite lookup_insert. case_decide; [done|].
  apply mkmissing_lookup_special.
Qed.

Lemma node_of_member_not_device m a b :
  not_device m → node_of_member m ≠ Special a b.
Proof.
  unfold not_device, node_of_member. intros Hm.
  repeat case_bool_decide; try done.
  - destruct Hm. rewrite H1. set_solver.
  - destruct Hm. rewrite H2. set_solver.
Qed.

Lemma extractall_lookup_special dest ms (m : gmap string node) p a b :
  Forall not_device ms →
  extractall dest ms m !! p = Some (Special a b) →
  m !! p = Some (Special a b).
Proof.
  unfold extractall. intros Hms. revert m.
  induction Hms as [|x ms Hx Hms IH]; intros m; simpl; [done|].
  intros Hl%IH. unfold extract_member in Hl.
  rewrite lookup_insert in Hl. case_decide.
  - simplify_eq. by destruct (node_of_member_not_device x a b).
  - by apply mkmissing_lookup_special in Hl.
Qed.

(** A script that only builds leaves no device node behind that was not
    there before. *)
Lemma no_device_created {A} (p : prog A) st tr o st' path a b :
  runs_in st p tr o st' →
  Forall (λ ev, builds_only (call_of ev)) tr →
  fs st' !! path = Some (Special a b) →
  fs st !! path = Some (Special a b).
Proof.
  revert st tr. induction p as [x | e | c k IH]; intros st tr; simpl.
  - by intros (_ & _ & ->).
  - by intros (_ & _ & ->).
  - intros [(r & st1 & tr' & Hs & -> & Hk) | (s & Hs & -> & -> & ->)];
      [|done].
    intros [Hc Htr']%Forall_cons Hl.
    specialize (IH _ _ _ Hk Htr' Hl). clear Hk Hl.
    destruct r as [x | e]; simpl in Hs; [|by destruct Hs as [_ ->]].
    destruct c; simpl in *; try done.
    all: repeat case_match; simplify_eq; try done; simpl in *.
    + by apply mkdirs_lookup_special in IH.
    + by apply extractall_lookup_special in IH.
Qed.

(** ** Extraction of the image *)

Lemma elem_of_extract_calls (tr : list event) ev t d ms :
  ev ∈ tr → call_of ev = ExtractAll t d ms →
  ExtractAll t d ms ∈ extract_calls tr.
Proof.
  intros Hin Hc. unfold extract_calls. apply list_elem_of_omap.
  exists ev. split; [done|]. by rewrite Hc.
Qed.

Lemma extract_calls_elem_of (tr : list event) c :
  c ∈ extract_calls tr → ∃ ev, ev ∈ tr ∧ call_of ev = c.
Proof.
  unfold extract_calls. intros (ev & Hin & Hc)%list_elem_of_omap.
  exists ev. split; [done|]. by destruct (call_of ev); simplify_eq.
Qed.

Lemma elem_of_members_read (tr : list event) t ms :
  Ev (GetMembers t) (Ok ms) ∈ tr ↔ (t, ms) ∈ members_read tr.
Proof.
  unfold members_read. rewrite list_elem_of_omap. split.
  - intros Hin. by exists (Ev (GetMembers t) (Ok ms)).
  - intros (ev & Hin & Hm). destruct ev as [c r|c]; [|done].
    destruct c; try done. destruct r; [|done]. by simplify_eq/=.
Qed.

Lemma Forall_not_device_filter (ms : list TarInfo) :
  Forall not_device (filter not_device ms).
Proof. apply Forall_forall. by intros m [? _]%list_elem_of_filter. Qed.

(** ** Entries persist while a script only builds *)

Lemma mkmissing_is_Some dirs (m : gmap string node) q :
  is_Some (m !! q) → is_Some (mkmissing dirs m !! q).
Proof.
  unfold mkmissing. revert m.
  induction dirs as [|d dirs IH]; intros m Hq; simpl; [done|].
  apply IH. destruct (m !! d) eqn:E; [done|].
  rewrite lookup_insert. case_decide; [by eexists | done].
Qed.

Lemma mkdirs_is_Some p (m : gmap string node) q :
  is_Some (m !! q) → is_Some (mkdirs p m !! q).
Proof.
  intros Hq. unfold mkdirs. rewrite lookup_insert.
  case_decide; [by eexists | by apply mkmissing_is_Some].
Qed.

Lemma mkdirs_lookup p (m : gmap string node) : mkdirs p m !! p = Some Dir.
Proof. unfold mkdirs. by rewrite lookup_insert_eq. Qed.

Lemma extractall_is_Some dest ms (m : gmap string node) q :
  is_Some (m !! q) → is_Some (extractall dest ms m !! q).
Proof.
  unfold extractall. revert m.
  induction ms as [|x ms IH]; intros m Hq; simpl; [done|].
  apply IH. unfold extract_member. rewrite lookup_insert.
  case_decide; [by eexists | by apply mkmissing_is_Some].
Qed.

Lemma denied_cons ev tr :
  denied (ev :: tr)
  = match denied_of ev with Some q => q :: denied tr | None => denied tr end.
Proof. reflexivity. Qed.

Lemma present_cons ev tr :
  present (ev :: tr)
  = match present_of ev with
    | Some q => q :: present tr
    | None => present tr
    end.
Proof. reflexivity. Qed.

(** One call that only builds keeps every entry. *)
Lemma sys_ok_is_Some st c x st1 q :
  builds_only c → sys_ok st c = Some (x, st1) →
  is_Some (fs st !! q) → is_Some (fs st1 !! q).
Proof.
  intros Hc Hok Hq. destruct c; simpl in *; try done.
  all: repeat case_match; simplify_eq; try done; simpl.
  - by apply mkdirs_is_Some.
  - by apply extractall_is_Some.
Qed.

(** An entry that is there when a building script starts is never found
    missing by it, and is there when the script ends. *)
Lemma entries_persist {A} (p : prog A) st tr o st' q :
  runs_in st p tr o st' →
  Forall (λ ev, builds_only (call_of ev)) tr →
  is_Some (fs st !! q) →
  (q ∉ denied tr) ∧ is_Some (fs st' !! q).
Proof.
  revert st tr. induction p as [x | e | c k IH]; intros st tr; simpl.
  - intros (-> & _ & ->) _ Hq. split; [apply not_elem_of_nil | done].
  - intros (-> & _ & ->) _ Hq. split; [apply not_elem_of_nil | done].
  - intros [(r & st1 & tr' & Hs & -> & Hk) | (s & Hs & -> & -> & ->)].
    2:{ intros _ Hq. split; [|done]. rewrite denied_cons.
        destruct c; try done; apply not_elem_of_nil. }
    intros [Hc Htr']%Forall_cons Hq.
    assert (is_Some (fs st1 !! q) ∧ denied_of (Ev c r) ≠ Some q)
      as [Hq1 Hd].
    { destruct r as [x | e]; simpl in Hs.
      - split; [by eapply sys_ok_is_Some|].
        destruct c; simpl in *; try done. simplify_eq.
        case_bool_decide; [done|]. intros [= ->]. done.
      - destruct Hs as [_ ->]. split; [done|]. by destruct c. }
    destruct (IH _ _ _ Hk Htr' Hq1) as [Hnd Hq'].
    split; [|done]. rewrite denied_cons.
    destruct (denied_of (Ev c r)) eqn:E; [|done].
    intros [->|?]%elem_of_cons; done.
Qed.

(** An entry a building script has seen present or made is there when the
    script ends. *)
Lemma present_persist {A} (p : prog A) st tr o st' q :
  runs_in st p tr o st' →
  Forall (λ ev, builds_only (call_of ev)) tr →
  q ∈ present tr →
  is_Some (fs st' !! q).
Proof.
  revert st tr. induction p as [x | e | c k IH]; intros st tr; simpl.
  - intros (-> & _ & ->) _ Hq. by apply elem_of_nil in Hq.
  - intros (-> & _ & ->) _ Hq. by apply elem_of_nil in Hq.
  - intros [(r & st1 & tr' & Hs & -> & Hk) | (s & Hs & -> & -> & ->)].
    2:{ intros _ Hq. rewrite present_cons in Hq. simpl in Hq.
        by apply elem_of_nil in Hq. }
    intros [Hc Htr']%Forall_cons Hq.
    rewrite present_cons in Hq.
    destruct (present_of (Ev c r)) as [q'|] eqn:E; [|by eapply IH].
    apply elem_of_cons in Hq as [-> | Hq]; [|by eapply IH].
    eapply (entries_persist _ _ _ _ _ _ Hk Htr').
    destruct c; simpl in *; try done.
    + destruct r as [[]|]; simplify_eq. simpl in Hs. simplify_eq.
      by case_bool_decide.
    + destruct r; simplify_eq. simpl in Hs.
      destruct (fs st !! q') eqn:E'; simplify_eq. simpl.
      rewrite mkdirs_lookup. by eexists.
Qed.

(** ** Traces determine states *)

Lemma runs_in_replays {A} (p : prog A) st tr o st' :
  runs_in st p tr o st' → replays st tr st'.
Proof.
  revert st tr. induction p as [x | e | c k IH]; intros st tr; simpl.
  - by intros (-> & _ & ->).
  - by intros (-> & _ & ->).
  - intros [(r & st1 & tr' & Hs & -> & Hk) | (s & Hs & -> & -> & ->)];
      simpl; eauto.
Qed.

Lemma mkmissing_lookup_ne dirs (m : gmap string node) k :
  k ∉ dirs → mkmissing dirs m !! k = m !! k.
Proof.
  unfold mkmissing. revert m.
  induction dirs as [|d dirs IH]; intros m Hk; simpl; [done|].
  apply not_elem_of_cons in Hk as [Hne Hk]. rewrite IH by done.
  destruct (m !! d); [done|]. by rewrite lookup_insert_ne.
Qed.

(** What the calls of a trace leave untouched is the same before and
    after. *)
Lemma replays_untouched st tr st' k :
  replays st tr st' →
  Forall (λ ev, untouched_by k (call_of ev)) tr →
  fs st' !! k = fs st !! k.
Proof.
  revert st. induction tr as [|[c r|c] tr IH]; intros st; simpl.
  - by intros ->.
  - intros (st1 & Hs & Hrep) [Hc Htr]%Forall_cons.
    rewrite (IH _ Hrep Htr). clear IH Hrep Htr.
    destruct r as [x | e]; simpl in Hs; [|by destruct Hs as [_ ->]].
    destruct c; simpl in *; try done.
    all: repeat case_match; simplify_eq; try done; simpl.
    destruct Hc as [Hne Hpar]. unfold mkdirs.
    rewrite lookup_insert_ne by done. by apply mkmissing_lookup_ne.
  - by intros ->.
Qed.

Lemma parents_from_starts pre s a :
  a ∈ parents_from pre s → starts (pre +:+ s) a.
Proof.
  revert pre. induction s as [|c s IH]; intros pre; simpl.
  - by intros ?%elem_of_nil.
  - intros [Hin | Hin]%elem_of_app.
    + destruct (_ && _); [|by apply elem_of_nil in Hin].
      apply list_elem_of_singleton in Hin as ->. by eexists.
    + apply IH in Hin as [rest Hrest]. exists rest.
      rewrite <-Hrest, append_assoc. done.
Qed.

(** A path begins with each of its ancestors. *)
Lemma parents_starts q a : a ∈ parents q → starts q a.
Proof. apply (parents_from_starts "" q a). Qed.

Lemma starts_trans s r r' : starts s r → starts r r' → starts s r'.
Proof.
  intros [x ->] [y ->]. exists (y +:+ x). by rewrite append_assoc.
Qed.

(** Making a directory outside a tree leaves the tree untouched. *)
Lemma untouched_by_makedirs root q k :
  ¬ starts q root → starts k root → untouched_by k (Makedirs q).
Proof.
  intros Hq Hk. split.
  - by intros ->.
  - intros Hin%parents_starts. destruct Hq. by eapply starts_trans.
Qed.

(** ** Words a path ends with *)

Lemma ends_join (a : string) l b : ends (os_path_join a (l ++ [b])) b.
Proof. apply os_path_join_suffix. Qed.

Lemma ends_trans s x y : ends s x → ends x y → ends s y.
Proof.
  intros [p ->] [p' ->]. exists (p +:+ p'). by rewrite append_assoc.
Qed.

Lemma ends_neq s s' x y :
  ends s x → ends s' y → String.length x = String.length y → x ≠ y →
  s ≠ s'.
Proof. intros [p Hs] [p' Hs']. by eapply suffix_neq. Qed.

Lemma ends_extsep_join a b : ends (extsep_join a b) b.
Proof. exists (a +:+ "."). unfold extsep_join. by rewrite append_assoc. Qed.

(** ** The layered root: [create_container_root] *)

Section CreateContainerRoot.
Context `{LinuxModule}.
Variables image_name image_dir container_id container_dir : string.

Let image_path := os_path_join image_dir [extsep_join image_name "tar"].
Let image_root := os_path_join image_dir [image_name; "rootfs"].
Let overlay_path := os_path_join container_dir ["overlay"].
Let upper_path :=
  os_path_join container_dir ["overlay"; container_id; "upper"].
Let work_root :=
  os_path_join container_dir ["overlay"; container_id; "work"].
Let merged :=
  os_path_join container_dir ["overlay"; container_id; "merged"].
Let the_mount :=
  Mount (Some "overlay") merged (Some "overlayfs") MS_NODEV
    (Some ("lowerdir=" +:+ image_root +:+ ",upperdir=" +:+ upper_path
           +:+ ",workdir=" +:+ work_root)).

(** What every run of [create_container_root] has in common.
    - It mounts nothing but the overlay, at most once and as its last
      call, and returns the mount point once the mount has succeeded.
    - It extracts at most once: after the existence test of the image tree
      has answered no, into that tree, the members read from the archive
      less the device entries.
    - None of its calls can create a device node.
    - Unless the existence test of the image tree answers no, it only
      creates the container's directories and mounts.
    - Either the archive is found missing, right after the overlay
      directory has been seen or made, or the only paths whose existence
      test answers no are the five directories.
    - Once the existence test of the image tree has answered no, the run
      reaches [extractall] unless making the tree, opening the archive or
      reading its members raises.
    - A run that returns has seen the image tree present or made it.
    - A run returns or raises: it does not end the process. *)
Lemma create_container_root_runs tr o :
  runs (Overlay.create_container_root image_name image_dir container_id
          container_dir) tr o →
  ((mount_calls tr = [] ∧ ∀ r, o ≠ Returned r)
   ∨ (mount_calls tr = [the_mount] ∧ call_of <$> last tr = Some the_mount
      ∧ ∀ r, o = Returned r →
             r = merged ∧ last tr = Some (Ev the_mount (Ok tt))))
  ∧ ((members_read tr = [] ∧ extract_calls tr = [])
     ∨ ∃ t ms,
         members_read tr = [(t, ms)]
         ∧ extract_calls tr
           = [ExtractAll t image_root (filter not_device ms)]
         ∧ image_root ∈ denied tr)
  ∧ Forall (λ ev, builds_only (call_of ev)) tr
  ∧ (image_root ∈ denied tr
     ∨ Forall (.∈ [Makedirs overlay_path; Makedirs upper_path;
                   Makedirs work_root; Makedirs merged; the_mount])
              (effects tr))
  ∧ ((o = Abort (Raised (AssertionError
                           ("unable to locate image " +:+ image_name)))
      ∧ (tr = [Ev (Exists overlay_path) (Ok true);
               Ev (Exists image_path) (Ok false)]
         ∨ tr = [Ev (Exists overlay_path) (Ok false);
                 Ev (Makedirs overlay_path) (Ok tt);
                 Ev (Exists image_path) (Ok false)]))
     ∨ Forall (.∈ [overlay_path; image_root; upper_path; work_root; merged])
              (denied tr))
  ∧ (Forall (.∈ [overlay_path; image_path; upper_path; work_root; merged])
            (denied tr)
     ∨ extract_calls tr ≠ []
     ∨ ∃ c e, Ev c (Err e) ∈ tr
              ∧ (c = Makedirs image_root ∨ c = TarOpen image_path
                 ∨ ∃ t, c = GetMembers t))
  ∧ ((∀ r, o ≠ Returned r) ∨ image_root ∈ present tr)
  ∧ ((∃ r, o = Returned r) ∨ ∃ e, o = Abort (Raised e)).
Proof.
  intros Hr.
  unfold Overlay.create_container_root, with_tarfile_open in Hr.
  runs_inv Hr.
  all: split_and!;
    [ first [ by left
            | right; split_and!; [done..|]; by intros ? [= <-] ]
    | first [ by left
            | right; eexists _, _; split_and!; [done..|];
              simpl; solve_elem_of ]
    | repeat first [ apply Forall_nil_2
                   | apply Forall_cons_2;
                     [first [exact I | apply Forall_not_device_filter]|] ]
    | first [ left; simpl; solve_elem_of
            | right; simpl;
              repeat (apply Forall_cons_2; [solve_elem_of|]);
              apply Forall_nil_2 ]
    | first [ right; simpl;
              repeat (apply Forall_cons_2; [solve_elem_of|]);
              apply Forall_nil_2
            | left; split; [done|]; first [by left | by right] ]
    | first [ left; simpl;
              repeat (apply Forall_cons_2; [solve_elem_of|]);
              apply Forall_nil_2
            | by right; left
            | right; right; eexists (Makedirs _), _;
              split; [solve_elem_of | by left]
            | right; right; eexists (TarOpen _), _;
              split; [solve_elem_of | by right; left]
            | right; right; eexists (GetMembers _), _;
              split; [solve_elem_of | right; right; by eexists] ]
    | first [ by left | right; simpl; solve_elem_of ]
    | first [ by left; eexists | by right; eexists ] ].
Qed.
End CreateContainerRoot.

(** ** Claims about [create_container_root] *)

Section LayeredRoot.
Context `{LinuxModule}.
Variables image_name image_dir container_id container_dir : string.

Let image_path := os_path_join image_dir [extsep_join image_name "tar"].
Let image_root := os_path_join image_dir [image_name; "rootfs"].
Let overlay_path := os_path_join container_dir ["overlay"].
Let upper_path :=
  os_path_join container_dir ["overlay"; container_id; "upper"].
Let work_root :=
  os_path_join container_dir ["overlay"; container_id; "work"].
Let merged :=
  os_path_join container_dir ["overlay"; container_id; "merged"].
Let the_mount :=
  Mount (Some "overlay") merged (Some "overlayfs") MS_NODEV
    (Some ("lowerdir=" +:+ image_root +:+ ",upperdir=" +:+ upper_path
           +:+ ",workdir=" +:+ work_root)).

(** The six paths end with different words. *)
Lemma image_path_ends : ends image_path "tar".
Proof. eapply ends_trans; [apply (ends_join _ [])|apply ends_extsep_join]. Qed.

Lemma image_root_ends : ends image_root "tfs".
Proof.
  eapply ends_trans; [apply (ends_join _ [_])|]. exists "roo"; reflexivity.
Qed.

Lemma overlay_path_ends : ends overlay_path "lay".
Proof.
  eapply ends_trans; [apply (ends_join _ [])|]. exists "over"; reflexivity.
Qed.

Lemma upper_path_ends : ends upper_path "per".
Proof.
  eapply ends_trans; [apply (ends_join _ [_; _])|]. exists "up"; reflexivity.
Qed.

Lemma work_root_ends : ends work_root "ork".
Proof.
  eapply ends_trans; [apply (ends_join _ [_; _])|]. exists "w"; reflexivity.
Qed.

Lemma merged_ends : ends merged "ged".
Proof.
  eapply ends_trans; [apply (ends_join _ [_; _])|]. exists "mer"; reflexivity.
Qed.

Lemma image_path_not_a_directory :
  image_path ∉ [overlay_path; image_root; upper_path; work_root; merged].
Proof.
  pose proof image_path_ends. pose proof image_root_ends.
  pose proof overlay_path_ends. pose proof upper_path_ends.
  pose proof work_root_ends. pose proof merged_ends.
  rewrite !not_elem_of_cons. split_and!; [..|apply not_elem_of_nil].
  all: by eapply ends_neq.
Qed.

Lemma image_root_not_other :
  image_root ∉ [overlay_path; image_path; upper_path; work_root; merged].
Proof.
  pose proof image_path_ends. pose proof image_root_ends.
  pose proof overlay_path_ends. pose proof upper_path_ends.
  pose proof work_root_ends. pose proof merged_ends.
  rewrite !not_elem_of_cons. split_and!; [..|apply not_elem_of_nil].
  all: by eapply ends_neq.
Qed.

(** C2.  Whenever a run of [create_container_root] reaches a mount call,
    that call mounts the overlay on the merged directory
    <containersDir>/overlay/<containerId>/merged, with the option string
    lowerdir=<imageRoot>,upperdir=<upperPath>,workdir=<workRoot> built from
    the image tree and the container's upper and work directories, and
    with the flag MS_NODEV set; for well-formed directory and container
    names the three container paths are the plain concatenations. *)
Theorem overlay_mount_call tr o ev source target fstype flags data :
  runs (Overlay.create_container_root image_name image_dir container_id
          container_dir) tr o →
  ev ∈ tr →
  call_of ev = Mount source target fstype flags data →
  source = Some "overlay" ∧ fstype = Some "overlayfs"
  ∧ target = merged
  ∧ data = Some ("lowerdir=" +:+ image_root +:+ ",upperdir=" +:+ upper_path
                 +:+ ",workdir=" +:+ work_root)
  ∧ flags = MS_NODEV ∧ Z.land flags MS_NODEV = MS_NODEV
  ∧ (directory container_dir → component container_id →
     merged = container_dir +:+ "/overlay/" +:+ container_id +:+ "/merged"
     ∧ upper_path
       = container_dir +:+ "/overlay/" +:+ container_id +:+ "/upper"
     ∧ work_root
       = container_dir +:+ "/overlay/" +:+ container_id +:+ "/work").
Proof.
  intros Hr Hin Hc.
  pose proof (elem_of_mount_calls _ _ _ _ _ _ _ Hin Hc) as Hm.
  destruct (create_container_root_runs _ _ _ _ _ _ Hr)
    as ([[Hnone _] | (Hone & _)] & _); rewrite ?Hnone, ?Hone in Hm.
  { by apply elem_of_nil in Hm. }
  apply list_elem_of_singleton in Hm.
  injection Hm as -> -> -> -> ->.
  split_and!; try done.
  - apply Z.land_diag.
  - intros Hd Hi. unfold merged, upper_path, work_root.
    rewrite !os_path_join_3 by (done || by compute).
    done.
Qed.

(** C9.  When the existence test of the archive <imagesDir>/<imageName>.tar
    answers no, [create_container_root] fails its assertion, and by then
    it has tested the overlay base directory and, if that was absent, made
    it: the directory is made before the archive is looked for, and it
    stays on disk after the failure. *)
Theorem missing_image_after_overlay st tr o st' :
  runs_in st (Overlay.create_container_root image_name image_dir
                container_id container_dir) tr o st' →
  Ev (Exists image_path) (Ok false) ∈ tr →
  o = Abort (Raised (AssertionError
                       ("unable to locate image " +:+ image_name)))
  ∧ (fs st !! overlay_path = None →
     tr = [Ev (Exists overlay_path) (Ok false);
           Ev (Makedirs overlay_path) (Ok tt);
           Ev (Exists image_path) (Ok false)]
     ∧ fs st' !! overlay_path = Some Dir)
  ∧ (is_Some (fs st !! overlay_path) →
     tr = [Ev (Exists overlay_path) (Ok true);
           Ev (Exists image_path) (Ok false)]
     ∧ st' = st).
Proof.
  intros Hin Hno. pose proof (runs_in_replays _ _ _ _ _ Hin) as Hrep.
  apply runs_in_runs in Hin.
  destruct (create_container_root_runs _ _ _ _ _ _ Hin)
    as (_ & _ & _ & _ & [(-> & Htr) | Hd] & _).
  2:{ apply elem_of_denied in Hno.
      rewrite Forall_forall in Hd. apply Hd in Hno.
      by destruct image_path_not_a_directory. }
  split; [done|].
  unfold overlay_path, image_path in *.
  destruct Htr as [-> | ->]; simpl in Hrep.
  - destruct Hrep as (st1 & Hs1 & st2 & Hs2 & ->).
    injection Hs1 as Hb ?. injection Hs2 as _ ?. subst.
    apply bool_decide_eq_true in Hb.
    split; [|done]. intros Hnone. rewrite Hnone in Hb. by destruct Hb.
  - destruct Hrep as (st1 & Hs1 & st2 & Hmk & st3 & Hs3 & ->).
    injection Hs1 as Hb ?. injection Hs3 as _ ?. subst.
    apply bool_decide_eq_false in Hb.
    split; [|by intros ?].
    intros Hnone. split; [done|].
    rewrite Hnone in Hmk. injection Hmk as <-. simpl.
    apply mkdirs_lookup.
Qed.

Lemma not_device_iff m :
  not_device m ↔ type m ≠ tarfile.CHRTYPE ∧ type m ≠ tarfile.BLKTYPE.
Proof.
  unfold not_device. rewrite !not_elem_of_cons.
  pose proof (not_elem_of_nil (type m)). tauto.
Qed.


(** A call that returns yields the merged directory. *)
Lemma create_container_root_returns t a :
  runs (Overlay.create_container_root image_name image_dir container_id
          container_dir) t (Returned a) →
  a = merged.
Proof.
  intros Hr. destruct (create_container_root_runs _ _ _ _ _ _ Hr)
    as ([[_ Hno] | (_ & _ & Hret)] & _).
  - by destruct (Hno a).
  - by destruct (Hret a).
Qed.

(** A call that returns leaves the image tree on disk. *)
Lemma create_container_root_materializes st tr r st' :
  runs_in st (Overlay.create_container_root image_name image_dir
                container_id container_dir) tr (Returned r) st' →
  is_Some (fs st' !! image_root).
Proof.
  intros Hin. pose proof (runs_in_runs _ _ _ _ _ Hin) as Hr.
  destruct (create_container_root_runs _ _ _ _ _ _ Hr)
    as (_ & _ & Hbuild & _ & _ & _ & [Hno | Hpres] & _).
  { by destruct (Hno r). }
  by eapply present_persist.
Qed.

(** C8.  When the extraction directory of the image is already on disk, a
    call of [create_container_root] reads and extracts nothing: apart
    from existence tests and the print it only makes the container's
    directories and mounts the overlay, whose lower directory is the
    path that every call computes from the image's name; the entries of
    the image tree are left as they are (the container directories lying
    outside that tree), and the tree is still there afterwards.  The
    path it returns is the one that a first call with the same arguments
    returned. *)
Theorem materialize_idempotent st tr o st' :
  is_Some (fs st !! image_root) →
  runs_in st (Overlay.create_container_root image_name image_dir
                container_id container_dir) tr o st' →
  members_read tr = [] ∧ extract_calls tr = []
  ∧ (∀ ev, ev ∈ tr →
       (∃ q, call_of ev = Exists q) ∨ (∃ l, call_of ev = Print l)
       ∨ call_of ev ∈ [Makedirs overlay_path; Makedirs upper_path;
                       Makedirs work_root; Makedirs merged; the_mount])
  ∧ (Forall (λ d, ¬ starts d image_root)
            [overlay_path; upper_path; work_root; merged] →
     ∀ k, starts k image_root → fs st' !! k = fs st !! k)
  ∧ is_Some (fs st' !! image_root)
  ∧ (∀ r, o = Returned r →
          r = merged
          ∧ ∀ st0 tr0 r0 st1,
              runs_in st0 (Overlay.create_container_root image_name
                             image_dir container_id container_dir)
                tr0 (Returned r0) st1 →
              r0 = r).
Proof.
  intros Hroot Hin. pose proof (runs_in_runs _ _ _ _ _ Hin) as Hr.
  destruct (create_container_root_runs _ _ _ _ _ _ Hr)
    as (Hmount & Hex & Hbuild & Hidem & _).
  destruct (entries_persist _ _ _ _ _ _ Hin Hbuild Hroot) as [Hnd Hroot'].
  destruct Hex as [[Hread Hnone] | (t & ms & _ & _ & Hden)]; [|done].
  destruct Hidem as [Hden | Heff]; [done|].
  assert (∀ ev, ev ∈ tr →
            (∃ q, call_of ev = Exists q) ∨ (∃ l, call_of ev = Print l)
            ∨ call_of ev ∈ [Makedirs overlay_path; Makedirs upper_path;
                            Makedirs work_root; Makedirs merged;
                            the_mount]) as Hcalls.
  { intros ev Hev.
    destruct (elem_of_effects _ _ Hev) as [? | [? | Hc]]; [by left|eauto|].
    right; right. rewrite Forall_forall in Heff. by apply Heff. }
  split_and!; try done.
  - rewrite !Forall_cons. intros (Ho & Hu & Hw & Hm & _) k Hk.
    eapply replays_untouched; [by eapply runs_in_replays|].
    apply Forall_forall. intros ev Hev.
    destruct (Hcalls ev Hev) as [[q ->] | [[l ->] | Hc]]; [done..|].
    repeat (apply elem_of_cons in Hc as [-> | Hc]);
      [by eapply untouched_by_makedirs.. | done | by apply elem_of_nil in Hc].
  - intros r ->.
    pose proof (create_container_root_returns _ _ Hr) as ->.
    split; [done|]. intros st0 tr0 r0 st1 Hfirst%runs_in_runs.
    by apply create_container_root_returns in Hfirst.
Qed.
End LayeredRoot.

(** ** The device population step: [makedev] *)

(** A loop whose body is one call makes the calls of the list in order and
    stops at the first that raises. *)
Lemma runs_for_each {X} (l : list X) (body : X → prog unit) (f : X → call)
    tr o :
  (∀ x tr o, runs (body x) tr o →
     ∃ ev, tr = [ev] ∧ call_of ev = f x
           ∧ ((returned ev ∧ o = Returned tt)
              ∨ (¬ returned ev ∧ ∃ e, o = Abort (Raised e)))) →
  runs (for_each l body) tr o →
  (call_of <$> tr) `prefix_of` (f <$> l)
  ∧ (∀ a, o = Returned a → call_of <$> tr = f <$> l ∧ Forall returned tr)
  ∧ (o = Returned tt ∨ ∃ e, o = Abort (Raised e)).
Proof.
  intros Hbody. revert tr.
  induction l as [|x l IH]; intros tr Hr; simpl in Hr.
  - destruct Hr as [-> ->]. split_and!; [done| |by left].
    intros a _. by split.
  - apply runs_then in Hr
      as [(a & t1 & t2 & H1 & H2 & ->) | (s & H1 & ->)].
    + apply Hbody in H1 as (ev & -> & Hc & [[Hok _] | [_ [e ?]]]); [|done].
      destruct (IH _ H2) as (Hpre & Hret & Ho).
      change ([ev] ++ t2) with (ev :: t2). rewrite !fmap_cons, Hc.
      split_and!; [|intros a' Ha|done].
      * by apply prefix_cons.
      * destruct (Hret _ Ha) as [Heq Hall].
        split; [|by constructor]. by rewrite Heq.
    + apply Hbody in H1 as (ev & -> & Hc & [[_ ?] | [_ [e [= ->]]]]); [done|].
      rewrite !fmap_cons, Hc.
      split_and!; [|done|by right; eexists].
      apply prefix_cons, prefix_nil.
Qed.

(** What a single fallible call that returns nothing does. *)
Lemma runs_sys_unit (c : call) tr (o : outcome (ret c)) :
  stop_of c = None →
  runs (sys c) tr o →
  ∃ ev, tr = [ev] ∧ call_of ev = c
        ∧ ((returned ev ∧ ∃ x, o = Returned x)
           ∨ (¬ returned ev ∧ ∃ e, o = Abort (Raised e))).
Proof.
  intros Hs [(x & -> & ->) | [(e & _ & -> & ->) | (s & Hs' & _)]]%runs_sys.
  - eexists. split_and!; [done..|]. left. split; [done|by eexists].
  - eexists. split_and!; [done..|]. right. split; [by intros []|by eexists].
  - congruence.
Qed.

Section Makedev.
Context `{DictOrder}.
Variable dev_path : string.

Lemma yielded_nodes_perm : yielded_nodes ≡ₚ dev_nodes.
Proof. unfold yielded_nodes. by rewrite iteritems_perm. Qed.

Lemma yielded_types :
  Forall (λ d, d.2.1.1 = stat.S_IFCHR) (iteritems Overlay.DEVICES).
Proof.
  rewrite iteritems_perm. by repeat constructor.
Qed.

Lemma makedev_runs tr o :
  runs (Overlay.makedev dev_path) tr o →
  (call_of <$> tr) `prefix_of` (makedev_calls dev_path)
  ∧ (∀ a, o = Returned a →
          call_of <$> tr = (makedev_calls dev_path) ∧ Forall returned tr)
  ∧ (o = Returned tt ∨ ∃ e, o = Abort (Raised e)).
Proof.
  unfold Overlay.makedev, makedev_calls. intros Hr.
  apply runs_then in Hr as [(a & t1 & t2 & H1 & H2 & ->) | (s & H1 & ->)].
  2:{ runs_inv H1.
      all: split_and!; [|done|by right; eexists].
      all: simpl; repeat first [apply prefix_nil | apply prefix_cons]. }
  runs_inv H1.
  apply runs_then in H2 as [(a & t3 & t4 & H3 & H4 & ->) | (s & H3 & ->)].
  2:{ runs_inv H3. split_and!; [|done|by right; eexists].
      simpl; repeat first [apply prefix_nil | apply prefix_cons]. }
  runs_inv H3. rename H4 into H2.
  eapply (runs_for_each _ _ (λ d, Mknod (os_path_join dev_path [d.1])
                                   (Z.lor 0x1b6 d.2.1.1)
                                   (os_makedev d.2.1.2 d.2.2))) in H2.
  2:{ intros [device [[dev_type major] minor]] tr' o' Hr'.
      apply runs_sys_unit in Hr' as (ev & -> & Hc & Ho); [|done].
      exists ev. split_and!; [done..|].
      destruct Ho as [[? [[] ->]] | ?]; eauto. }
  assert ((λ d : string * (Z * Z * Z),
             Mknod (os_path_join dev_path [d.1]) (Z.lor 0x1b6 d.2.1.1)
               (os_makedev d.2.1.2 d.2.2)) <$> iteritems Overlay.DEVICES
          = mknod_call dev_path <$> yielded_nodes) as Heq.
  { unfold yielded_nodes. rewrite <-list_fmap_compose.
    apply Forall_fmap_ext_1. eapply Forall_impl; [apply yielded_types|].
    intros [device [[dev_type major] minor]]; simpl. by intros ->. }
  rewrite Heq in H2. destruct H2 as (Hpre & Hret & Ho).
  split_and!; [|intros a' Ha|done].
  all: rewrite (assoc (++)), fmap_app.
  all: match goal with
       | |- context [call_of <$> ?l ++ _] =>
           change (call_of <$> l)
             with (symlink_call dev_path <$> dev_symlinks)
       end.
  - by apply prefix_app.
  - destruct (Hret _ Ha) as [Hcalls Hall].
    split; [by rewrite Hcalls|].
    apply Forall_app. split; [by repeat constructor|done].
Qed.

(** C4.  The calls [makedev] makes under root/dev are, in this order:
    the symbolic links stdin, stdout and stderr to /proc/self/fd/0, 1 and
    2, the link fd to /proc/self/fd, and then, in the order in which the
    dictionary yields them, one [mknod] for each of null (1,3), zero
    (1,5), random (1,8), urandom (1,9), console (136,1), tty (5,0) and
    full (1,7); a run that raises stops at the call that raised.  Each
    node is created as a character device with permission bits 0666
    (octal), and its device number decodes to the listed (major, minor)
    pair. *)
Theorem makedev_creates tr o :
  runs (Overlay.makedev dev_path) tr o →
  ∃ nodes,
    nodes ≡ₚ dev_nodes
    ∧ (call_of <$> tr)
        `prefix_of` (symlink_call dev_path <$> dev_symlinks)
                    ++ (mknod_call dev_path <$> nodes)
    ∧ (∀ a, o = Returned a →
            call_of <$> tr
            = (symlink_call dev_path <$> dev_symlinks)
              ++ (mknod_call dev_path <$> nodes)
            ∧ Forall returned tr)
    ∧ stat.S_IFMT (Z.lor 0x1b6 stat.S_IFCHR) = stat.S_IFCHR
    ∧ stat.S_IMODE (Z.lor 0x1b6 stat.S_IFCHR) = 0x1b6
    ∧ Forall (λ d, os_major (os_makedev d.2.1 d.2.2) = d.2.1
                   ∧ os_minor (os_makedev d.2.1 d.2.2) = d.2.2) nodes.
Proof.
  intros Hr. exists yielded_nodes.
  destruct (makedev_runs _ _ Hr) as (Hpre & Hret & _).
  split_and!; [apply yielded_nodes_perm|done|done|done|done|].
  rewrite yielded_nodes_perm. by repeat constructor.
Qed.
End Makedev.

(** ** What the device population step leaves on disk *)

Lemma strip_prefix_Some (p k n : string) :
  strip_prefix p k = Some n ↔ k = p +:+ n.
Proof.
  revert k. induction p as [|a p IH]; intros k; simpl.
  - split; [by intros [= ->] | by intros ->].
  - destruct k as [|b k].
    + split; [done | by rewrite append_cons].
    + rewrite append_cons. case_bool_decide as Hab.
      * subst b. rewrite IH. split; [by intros -> | by intros [= ->]].
      * split; [done | intros [= ? _]; done].
Qed.

Lemma os_path_join_entry (d n : string) :
  startswith_sep n = false → os_path_join d [n] = dir_prefix d +:+ n.
Proof.
  intros Hn. unfold os_path_join, dir_prefix; simpl. unfold join2.
  rewrite Hn. destruct (_ || _); [done|]. by rewrite append_assoc.
Qed.

Lemma entry_name_startswith (n : string) :
  entry_name n → startswith_sep n = false.
Proof.
  intros [_ Hs]. destruct n as [|a n]; [done|]. simpl in *.
  by apply orb_false_iff in Hs as [? _].
Qed.

Lemma elem_of_listdir (d : string) st n :
  n ∈ listdir d st ↔
    entry_name n ∧ is_Some (fs st !! os_path_join d [n]).
Proof.
  unfold listdir. rewrite list_elem_of_omap. split.
  - intros ([k v] & Hkv & Hf). simpl in Hf.
    destruct (strip_prefix (dir_prefix d) k) as [n'|] eqn:Hk; [|done].
    destruct (decide (entry_name n')) as [Hn|]; [|done].
    injection Hf as ->. split; [done|].
    apply strip_prefix_Some in Hk as ->.
    rewrite os_path_join_entry by by apply entry_name_startswith.
    apply elem_of_map_to_list in Hkv. by eexists.
  - intros [Hn [v Hv]].
    rewrite os_path_join_entry in Hv by by apply entry_name_startswith.
    exists (dir_prefix d +:+ n, v). split.
    + by apply elem_of_map_to_list.
    + simpl.
      rewrite (proj2 (strip_prefix_Some (dir_prefix d) _ n) eq_refl).
      by rewrite decide_True.
Qed.

Lemma NoDup_listdir (d : string) st : NoDup (listdir d st).
Proof.
  unfold listdir.
  pose proof (NoDup_fst_map_to_list (fs st)) as Hnd.
  induction (map_to_list (fs st)) as [|[k v] l IH]; simpl.
  { constructor. }
  rewrite fmap_cons in Hnd. apply NoDup_cons in Hnd as [Hk Hnd].
  specialize (IH Hnd).
  destruct (strip_prefix (dir_prefix d) k) as [n|] eqn:Hn; [|done].
  destruct (decide (entry_name n)); [|done].
  constructor; [|done].
  intros ([k' v'] & Hin & Hf)%list_elem_of_omap. simpl in Hf.
  destruct (strip_prefix (dir_prefix d) k') as [n'|] eqn:Hn'; [|done].
  destruct (decide (entry_name n')); [|done]. injection Hf as ->.
  apply strip_prefix_Some in Hn as ->. apply strip_prefix_Some in Hn' as ->.
  destruct Hk. apply list_elem_of_fmap. by exists (dir_prefix d +:+ n, v').
Qed.

(** After calls that create entries and all return, the disk holds what it
    held before and what the calls created. *)
Lemma replays_creates st tr st' k v :
  Forall returned tr →
  Forall (λ ev, is_Some (create_entry (call_of ev))) tr →
  replays st tr st' →
  fs st' !! k = Some v ↔
    fs st !! k = Some v
    ∨ ∃ ev, ev ∈ tr ∧ create_entry (call_of ev) = Some (k, v).
Proof.
  intros Hret Hcr. revert st.
  induction tr as [|ev tr IH]; intros st Hrep; simpl in Hrep.
  { subst st'. split; [by left|]. intros [? | (ev & Hin & _)]; [done|].
    by apply elem_of_nil in Hin. }
  apply Forall_cons in Hret as [Hev Hret].
  apply Forall_cons in Hcr as [Hc Hcr].
  destruct ev as [c [x|e]|c]; try done.
  destruct Hrep as (st1 & Hs & Hrep). simpl in Hs, Hc.
  rewrite (IH Hret Hcr _ Hrep). clear IH Hrep.
  assert (∃ p e, create_entry c = Some (p, e) ∧ fs st !! p = None
                 ∧ fs st1 = <[p := e]> (fs st)) as (p & e & Hce & Hp & Hst1).
  { destruct c; simpl in *; try by destruct Hc.
    - destruct (fs st !! dst) eqn:E; [done|]. injection Hs as _ <-.
      by eexists _, _.
    - destruct (fs st !! path) eqn:E; [done|]. injection Hs as _ <-.
      by eexists _, _. }
  rewrite Hst1, lookup_insert. split.
  - intros [Hl | (ev & Hin & Hev')].
    + case_decide as Hk; [|by left]. subst p. injection Hl as <-.
      right. exists (Ev c (Ok x)). split; [apply list_elem_of_here|done].
    + right. exists ev. split; [by apply list_elem_of_further|done].
  - intros [Hl | (ev & Hin & Hev')].
    + left. case_decide as Hk; [congruence|done].
    + apply elem_of_cons in Hin as [-> | Hin]; [|by eauto].
      left. simpl in Hev'. rewrite Hce in Hev'. injection Hev' as -> ->.
      by rewrite decide_True.
Qed.

Lemma os_path_join_entry_inj (d a b : string) :
  startswith_sep a = false → startswith_sep b = false →
  os_path_join d [a] = os_path_join d [b] → a = b.
Proof.
  intros Ha Hb. rewrite !os_path_join_entry by done.
  apply String.app_inj.
Qed.

(** Name the member of a written-out list by its position. *)
Tactic Notation "nth_member" integer(n) :=
  eexists; split;
    [do n apply list_elem_of_further; apply list_elem_of_here|reflexivity].

(** The entry created by the call at a position of [dev_calls], from the
    description [Hin] of the disk after the run. *)
Tactic Notation "nth_entry" integer(n) "from" constr(Hin) :=
  lazymatch goal with
  | |- kind_of <$> ?l = _ =>
      let Hl := fresh "Hl" in
      eassert (l = Some _) as Hl;
      [ apply Hin; right;
        unfold dev_calls, symlink_call, mknod_call; simpl;
        eexists; split;
        [do n apply list_elem_of_further; apply list_elem_of_here
        |reflexivity]
      | rewrite Hl; reflexivity ]
  end.

Section DevPopulation.
Context `{DictOrder}.
Variable dev_path : string.

Lemma makedev_calls_perm : makedev_calls dev_path ≡ₚ dev_calls dev_path.
Proof.
  unfold makedev_calls, dev_calls. by rewrite yielded_nodes_perm.
Qed.

(** After a run of [makedev] that returns, the disk holds what it held
    before and the eleven entries. *)
Lemma makedev_entries st tr st' k v :
  runs_in st (Overlay.makedev dev_path) tr (Returned tt) st' →
  fs st' !! k = Some v ↔
    fs st !! k = Some v
    ∨ ∃ c, c ∈ dev_calls dev_path ∧ create_entry c = Some (k, v).
Proof.
  intros Hin. pose proof (runs_in_replays _ _ _ _ _ Hin) as Hrep.
  apply runs_in_runs, makedev_runs in Hin as (_ & Hret & _).
  destruct (Hret tt eq_refl) as [Hcalls Hall].
  assert (Forall (λ c, is_Some (create_entry c)) (call_of <$> tr)) as Hcr.
  { rewrite Hcalls, makedev_calls_perm. by repeat constructor. }
  rewrite Forall_fmap in Hcr.
  rewrite (replays_creates _ _ _ k v Hall Hcr Hrep).
  apply or_iff_compat_l. split.
  - intros (ev & Hev & Hc). exists (call_of ev). split; [|done].
    rewrite <-makedev_calls_perm, <-Hcalls.
    apply list_elem_of_fmap. by exists ev.
  - intros (c & Hc & Hce).
    rewrite <-makedev_calls_perm, <-Hcalls in Hc.
    apply list_elem_of_fmap in Hc as (ev & -> & Hev). by exists ev.
Qed.

End DevPopulation.

(** ** Populating the root: [_create_mounts] *)

Lemma mount_calls_app t1 t2 :
  mount_calls (t1 ++ t2) = mount_calls t1 ++ mount_calls t2.
Proof. apply omap_app. Qed.

Lemma denied_app t1 t2 : denied (t1 ++ t2) = denied t1 ++ denied t2.
Proof. apply omap_app. Qed.

Lemma affirmed_app t1 t2 : affirmed (t1 ++ t2) = affirmed t1 ++ affirmed t2.
Proof. apply omap_app. Qed.

Lemma elem_of_affirmed (tr : list event) q :
  Ev (Exists q) (Ok true) ∈ tr ↔ q ∈ affirmed tr.
Proof.
  unfold affirmed. rewrite list_elem_of_omap. split.
  - intros Hin. by exists (Ev (Exists q) (Ok true)).
  - intros (ev & Hin & Hm). destruct ev as [c r|c]; [|done].
    destruct c; try done. destruct r as [[]|]; try done. by simplify_eq/=.
Qed.

Lemma mount_calls_cons ev tr :
  mount_calls (ev :: tr) = mount_calls [ev] ++ mount_calls tr.
Proof. apply (mount_calls_app [ev]). Qed.

Lemma affirmed_cons ev tr :
  affirmed (ev :: tr)
  = match affirmed_of ev with
    | Some q => q :: affirmed tr
    | None => affirmed tr
    end.
Proof. reflexivity. Qed.

(** A trace of calls that create entries has no mount and no existence
    test. *)
Lemma creates_quiet (tr : list event) :
  Forall (λ ev, is_Some (create_entry (call_of ev))) tr →
  mount_calls tr = [] ∧ denied tr = [] ∧ affirmed tr = [].
Proof.
  induction 1 as [|ev tr Hev _ (IH1 & IH2 & IH3)]; [done|].
  change (ev :: tr) with ([ev] ++ tr).
  rewrite mount_calls_app, denied_app, affirmed_app, IH1, IH2, IH3.
  destruct ev as [c r|c]; destruct c; simpl in *; by destruct Hev.
Qed.

Lemma makedev_quiet `{DictOrder} dev_path tr o :
  runs (Overlay.makedev dev_path) tr o →
  mount_calls tr = [] ∧ denied tr = [] ∧ affirmed tr = [].
Proof.
  intros (Hpre & _)%makedev_runs. apply creates_quiet.
  destruct Hpre as [rest Hrest].
  assert (Forall (λ c, is_Some (create_entry c)) (makedev_calls dev_path))
    as Hall.
  { unfold makedev_calls. apply Forall_app.
    split; apply Forall_fmap, Forall_forall; intros ? _; by eexists. }
  rewrite Hrest in Hall. apply Forall_app in Hall as [Hall _].
  by rewrite Forall_fmap in Hall.
Qed.

Section CreateMounts.
Context `{LinuxModule} `{DictOrder}.
Variable new_root : string.

Let devpts_path := os_path_join new_root ["dev"; "pts"].
Let proc_mount :=
  Mount (Some "proc") (os_path_join new_root ["proc"]) (Some "proc")
    0 (Some "").
Let sys_mount :=
  Mount (Some "sysfs") (os_path_join new_root ["sys"]) (Some "sysfs")
    0 (Some "").
Let dev_mount :=
  Mount (Some "tmpfs") (os_path_join new_root ["dev"]) (Some "tmpfs")
    (Z.lor MS_NOSUID MS_STRICTATIME) (Some "mode=755").
Let devpts_mount :=
  Mount (Some "devpts") devpts_path (Some "devpts") 0 (Some "").

(** The mounts of a run are the three of proc, sys and dev, and then the
    one of devpts if the existence test of root/dev/pts has answered no
    and the directory has been made. *)
Lemma create_mounts_runs tr o :
  runs (Overlay._create_mounts new_root) tr o →
  (Forall (.∈ [proc_mount; sys_mount; dev_mount]) (mount_calls tr)
   ∨ (Forall (.∈ [proc_mount; sys_mount; dev_mount; devpts_mount])
             (mount_calls tr)
      ∧ devpts_path ∈ denied tr
      ∧ Ev (Makedirs devpts_path) (Ok tt) ∈ tr))
  ∧ (affirmed tr = []
     ∨ Forall (.∈ [proc_mount; sys_mount; dev_mount]) (mount_calls tr))
  ∧ (o = Returned tt ∨ ∃ e, o = Abort (Raised e)).
Proof.
  intros Hr. unfold Overlay._create_mounts in Hr.
  Opaque Overlay.makedev. runs_inv Hr. Transparent Overlay.makedev.
  all: try (pose proof (proj2 (proj2 (makedev_runs _ _ _ Hr))) as Ho;
            apply makedev_quiet in Hr as (Hq1 & Hq2 & Hq3)).
  all: repeat match goal with
              | |- context [mount_calls (?ev :: ?l)] =>
                  lazymatch l with
                  | [] => fail
                  | _ => rewrite (mount_calls_cons ev l)
                  end
              end;
    rewrite ?denied_cons, ?affirmed_cons, ?Hq1, ?Hq2, ?Hq3; simpl.
  all: split_and!;
    [ first [ left; simpl;
              repeat (apply Forall_cons_2; [solve_elem_of|]);
              apply Forall_nil_2
            | right; split_and!;
              [ simpl;
                repeat (apply Forall_cons_2; [solve_elem_of|]);
                apply Forall_nil_2
              | simpl; solve_elem_of
              | solve_elem_of ] ]
    | first [ by left
            | right; simpl;
              repeat (apply Forall_cons_2; [solve_elem_of|]);
              apply Forall_nil_2 ]
    | first [ done | by right; eexists ] ].
Qed.

(** None of the three first mounts is of type devpts or lies on
    root/dev/pts. *)
Lemma other_mounts c src tgt fst fl data :
  c ∈ [proc_mount; sys_mount; dev_mount] →
  c = Mount src tgt fst fl data →
  fst ≠ Some "devpts" ∧ tgt ≠ devpts_path.
Proof.
  assert (ends devpts_path "pts") as Hpts by apply (ends_join _ [_]).
  intros Hc ->.
  repeat (apply elem_of_cons in Hc as [[= -> -> -> -> ->] | Hc]);
    [..|by apply elem_of_nil in Hc].
  all: split; [done|].
  - eapply (ends_neq _ _ "roc" "pts"); [|done..].
    eapply ends_trans; [apply (ends_join _ [])|]. exists "p"; reflexivity.
  - eapply (ends_neq _ _ "sys" "pts"); [|done..]. apply (ends_join _ []).
  - eapply (ends_neq _ _ "dev" "pts"); [|done..]. apply (ends_join _ []).
Qed.

End CreateMounts.

(** ** The containment entry point: [contain] *)

Lemma runs_seq_cons (p q : prog unit) rest tr o :
  (∀ tr o, runs q tr o ↔ runs_seq rest tr o) →
  runs (p ;; q) tr o ↔ runs_seq (p :: rest) tr o.
Proof.
  intros Hq. rewrite runs_then. simpl. split.
  - intros [(a & t1 & t2 & H1 & H2 & ->) | (s & H1 & ->)]; [|eauto].
    destruct a. left. exists t1, t2. by rewrite <-Hq.
  - intros [(t1 & t2 & H1 & H2 & ->) | (s & H1 & ->)]; [|eauto].
    left. exists tt, t1, t2. by rewrite Hq.
Qed.

(** A step whose value is known beforehand. *)
Lemma runs_seq_cons_val {A} (p : prog A) (f : A → prog unit) v rest tr o :
  (∀ t a, runs p t (Returned a) → a = v) →
  (∀ tr o, runs (f v) tr o ↔ runs_seq rest tr o) →
  runs (p ≫= f) tr o ↔ runs_seq ((p ;; Ret tt) :: rest) tr o.
Proof.
  intros Hv Hf. rewrite runs_bind. simpl. split.
  - intros [(a & t1 & t2 & H1 & H2 & ->) | (s & H1 & ->)].
    + rewrite (Hv _ _ H1) in H2. left. exists t1, t2.
      split_and!; [|by apply Hf|done].
      apply runs_then. left. exists a, t1, []. by rewrite app_nil_r.
    + right. exists s. split; [|done]. apply runs_then. eauto.
  - intros [(t1 & t2 & H1 & H2 & ->) | (s & H1 & ->)].
    + apply runs_then in H1 as [(a & t1' & t2' & H1 & [-> _] & ->) | (s & _ & ?)];
        [|done].
      rewrite app_nil_r. left. exists a, t1', t2.
      split_and!; [done| |done]. rewrite (Hv _ _ H1). by apply Hf.
    + apply runs_then in H1 as [(a & t1' & t2' & _ & [_ ?] & _) | (s' & H1 & ?)];
        [done|].
      simplify_eq. eauto.
Qed.

Lemma runs_seq_last (p : prog unit) tr o : runs p tr o ↔ runs_seq [p] tr o.
Proof.
  simpl. split.
  - intros Hr. destruct o as [[]|s]; [|eauto].
    left. exists tr, []. by rewrite app_nil_r.
  - intros [(t1 & t2 & H1 & [-> ->] & ->) | (s & H1 & ->)]; [|done].
    by rewrite app_nil_r.
Qed.

Lemma runs_sys_abort c t s :
  stop_of c = None → runs (sys c) t (Abort s) →
  ∃ e, s = Raised e ∧ t = [Ev c (Err e)].
Proof.
  intros Hc [(x & _ & ?) | [(e & _ & -> & [= ->]) | (s' & Hs & _)]]%runs_sys;
    [done|by eexists|congruence].
Qed.

Lemma runs_sys_return c t x :
  runs (sys c) t (Returned x) → t = [Ev c (Ok x)].
Proof.
  intros [(x' & -> & [= ->]) | [(e & _ & _ & ?) | (s' & _ & _ & ?)]]%runs_sys;
    done.
Qed.

Lemma runs_discard_return {A} (p : prog A) t :
  runs (p ;; Ret tt) t (Returned tt) → ∃ a, runs p t (Returned a).
Proof.
  intros [(a & t1 & t2 & H1 & [-> _] & ->) | (s & _ & ?)]%runs_then; [|done].
  rewrite app_nil_r. by exists a.
Qed.

Lemma runs_discard_abort {A} (p : prog A) t s :
  runs (p ;; Ret tt) t (Abort s) → runs p t (Abort s).
Proof.
  intros [(a & t1 & t2 & _ & [_ ?] & _) | (s' & H1 & [= ->])]%runs_then;
    done.
Qed.

Section Contain.
Context `{LinuxModule} `{DictOrder}.
Variable command : list string.
Variables image_name image_dir container_id container_dir : string.

Let root := os_path_join container_dir ["overlay"; container_id; "merged"].

Lemma contain_runs_seq tr o :
  runs (Overlay.contain command image_name image_dir container_id
          container_dir) tr o
  ↔ runs_seq (contain_steps command image_name image_dir container_id
                container_dir) tr o.
Proof.
  unfold Overlay.contain, contain_steps. cbv zeta. revert tr o.
  intros tr o. apply runs_seq_cons. clear tr o.
  intros tr o. apply runs_seq_cons. clear tr o.
  intros tr o. apply (runs_seq_cons_val _ _ root);
    [apply create_container_root_returns|]. clear tr o.
  do 7 (intros tr o; apply runs_seq_cons; clear tr o).
  intros tr o. apply runs_seq_last.
Qed.

(** The last step replaces the process image or raises. *)
Lemma exec_step_runs t o :
  runs (match command with
        | [] => Raise (IndexError "tuple index out of range")
        | file :: _ => os_execvp file command
        end : prog unit) t o →
  (∃ e, o = Abort (Raised e))
  ∨ (∃ file, head command = Some file
             ∧ o = Abort (Replaced file command)
             ∧ t = [Halt (Execvp file command)]).
Proof.
  destruct command as [|file args]; intros Hr.
  - destruct Hr as [_ ->]. left. by eexists.
  - unfold os_execvp in Hr. runs_inv Hr.
    + by destruct r0.
    + left. by eexists.
    + right. by exists file.
Qed.

(** A run of the nine steps never returns: it stops at the first step
    that raises, or it reaches the exec with the full trace. *)
Lemma contain_steps_outcome tr o :
  runs_seq (contain_steps command image_name image_dir container_id
              container_dir) tr o →
  (∃ e, o = Abort (Raised e))
  ∨ ∃ file tr3 tr4,
      head command = Some file
      ∧ o = Abort (Replaced file command)
      ∧ runs (Overlay.create_container_root image_name image_dir
                container_id container_dir) tr3 (Returned root)
      ∧ runs (Overlay._create_mounts root) tr4 (Returned tt)
      ∧ tr = contain_trace command file container_id container_dir
               tr3 tr4.
Proof.
  intros Hr.
  unfold contain_steps in Hr. cbv zeta in Hr. cbn [runs_seq] in Hr.
  destruct Hr as [(t1 & u1 & H1 & Hr & ->) | (s & H1 & ->)].
  2:{ apply runs_sys_abort in H1 as (e & -> & _); [|done]. left. eauto. }
  destruct Hr as [(t2 & u2 & H2 & Hr & ->) | (s & H2 & ->)].
  2:{ apply runs_sys_abort in H2 as (e & -> & _); [|done]. left. eauto. }
  destruct Hr as [(t3 & u3 & H3 & Hr & ->) | (s & H3 & ->)].
  2:{ apply runs_discard_abort in H3.
      destruct (create_container_root_runs _ _ _ _ _ _ H3)
        as (_ & _ & _ & _ & _ & _ & _ & [[r ?] | [e [= ->]]]); [done|].
      left. eauto. }
  destruct Hr as [(t4 & u4 & H4 & Hr & ->) | (s & H4 & ->)].
  2:{ apply runs_sys_abort in H4 as (e & -> & _); [|done]. left. eauto. }
  destruct Hr as [(t5 & u5 & H5 & Hr & ->) | (s & H5 & ->)].
  2:{ destruct (create_mounts_runs _ _ _ H5) as (_ & _ & [? | [e [= ->]]]);
        [done|]. left. eauto. }
  destruct Hr as [(t6 & u6 & H6 & Hr & ->) | (s & H6 & ->)].
  2:{ apply runs_sys_abort in H6 as (e & -> & _); [|done]. left. eauto. }
  destruct Hr as [(t7 & u7 & H7 & Hr & ->) | (s & H7 & ->)].
  2:{ apply runs_sys_abort in H7 as (e & -> & _); [|done]. left. eauto. }
  destruct Hr as [(t8 & u8 & H8 & Hr & ->) | (s & H8 & ->)].
  2:{ apply runs_sys_abort in H8 as (e & -> & _); [|done]. left. eauto. }
  destruct Hr as [(t9 & u9 & H9 & Hr & ->) | (s & H9 & ->)].
  2:{ apply runs_sys_abort in H9 as (e & -> & _); [|done]. left. eauto. }
  destruct Hr as [(t10 & u10 & H10 & Hr & ->) | (s & H10 & ->)].
  2:{ apply runs_sys_abort in H10 as (e & -> & _); [|done]. left. eauto. }
  destruct Hr as [(t11 & u11 & H11 & _ & _) | (s & H11 & ->)].
  { apply exec_step_runs in H11 as [[e ?] | (file & _ & ? & _)]; done. }
  apply exec_step_runs in H11 as [[e [= ->]] | (file & Hf & [= ->] & ->)].
  { left. eauto. }
  right. exists file, t3, t5.
  apply runs_discard_return in H3 as [a H3].
  rewrite (create_container_root_returns _ _ _ _ _ _ H3) in H3.
  apply runs_sys_return in H1, H2, H4, H6, H7, H8, H9, H10. subst.
  by split_and!.
Qed.

Lemma contain_outcome tr o :
  runs (Overlay.contain command image_name image_dir container_id
          container_dir) tr o →
  (∃ e, o = Abort (Raised e))
  ∨ ∃ file, o = Abort (Replaced file command).
Proof.
  intros Hr%contain_runs_seq.
  destruct (contain_steps_outcome _ _ Hr)
    as [? | (file & _ & _ & _ & -> & _)]; eauto.
Qed.

End Contain.

(** ** The supervisor: [run] *)

Lemma elem_of_forked (tr : list event) pid :
  Ev Fork (Ok pid) ∈ tr ↔ pid ∈ forked tr.
Proof.
  unfold forked. rewrite list_elem_of_omap. split.
  - intros Hin. by exists (Ev Fork (Ok pid)).
  - intros (ev & Hin & Hm). destruct ev as [c r|c]; [|done].
    destruct c; try done. destruct r; [|done]. by simplify_eq/=.
Qed.

Lemma elem_of_statuses (tr : list event) pid options w status :
  Ev (Waitpid pid options) (Ok (w, status)) ∈ tr → status ∈ statuses tr.
Proof.
  intros Hin. unfold statuses. apply list_elem_of_omap.
  by exists (Ev (Waitpid pid options) (Ok (w, status))).
Qed.

(** The replies of prints carry nothing. *)
Ltac unit_replies :=
  repeat match goal with
         | x : ret (Print _) |- _ => destruct x
         | x : ret (PrintExc _) |- _ => destruct x
         end.

Section Run.
Context `{LinuxModule} `{DictOrder}.
Variables image_name image_dir container_dir : string.
Variable command : list string.

(** C5.  In the forked child (the process in which the fork answered
    0), the run of [contain] either reaches the exec, or raises; when it
    raises an exception of class Exception, the child handles it at once
    by print_exc, which reports it on the standard error stream, and
    then ends by os._exit(1): nothing else follows, the child never gets
    to the wait of the parent, and its status is 1. *)
Theorem child_reports_and_exits tr o :
  runs (Overlay.run image_name image_dir container_dir command) tr o →
  Ev Fork (Ok 0) ∈ tr →
  ∃ container_id tr_c o_c,
    runs (Overlay.contain command image_name image_dir container_id
            container_dir) tr_c o_c
    ∧ ((∃ file, o_c = Abort (Replaced file command)
                ∧ o = Abort (Replaced file command)
                ∧ tr = Ev Uuid4 (Ok container_id) :: Ev Fork (Ok 0) :: tr_c)
       ∨ ∃ e, o_c = Abort (Raised e)
              ∧ if is_Exception e
                then tr = Ev Uuid4 (Ok container_id) :: Ev Fork (Ok 0)
                          :: tr_c
                          ++ [Ev (PrintExc e) (Ok tt); Halt (Exit_ 1)]
                     ∧ o = Abort (Exited 1)
                else tr = Ev Uuid4 (Ok container_id) :: Ev Fork (Ok 0)
                          :: tr_c
                     ∧ o = Abort (Raised e)).
Proof.
  intros Hr Hchild%elem_of_forked.
  unfold Overlay.run in Hr. runs_split Hr.
  all: try match goal with
           | Hc : runs (Overlay.contain _ _ _ _ _) _ (Returned _) |- _ =>
               exfalso; apply contain_outcome in Hc as [[? ?] | [? ?]];
               done
           end.
  all: try (exfalso; simpl in Hchild;
            repeat (apply elem_of_cons in Hchild as [? | Hchild];
                    [done|]);
            by apply elem_of_nil in Hchild).
  all: match goal with
       | Hc : runs (Overlay.contain _ _ _ ?cid _) ?t ?oc |- _ =>
           exists cid, t, oc; split; [exact Hc|]
       end.
  all: try match goal with x : Empty_set |- _ => destruct x end.
  all: repeat match goal with u : unit |- _ => destruct u end.
  all: simplify_eq.
  - unit_replies. right. eexists. split; [done|]. by rewrite Heqb.
  - right. eexists. split; [done|]. by rewrite Heqb, app_nil_r.
  - left.
    match goal with
    | Hc : runs (Overlay.contain _ _ _ _ _) _ (Abort ?s),
      Hn : ∀ e, ?s ≠ Raised e |- _ =>
        destruct (contain_outcome _ _ _ _ _ _ _ Hc) as [[e [= ->]] | [file [= ->]]];
        [by destruct (Hn e) | by exists file]
    end.
Qed.

(** In the parent, the level 00 supervisor prints the PID right after the
    fork. *)
Lemma fork_exec_prints_pid (cmd : list string) :
  prints_pid_after_fork (ForkExec.run cmd).
Proof.
  intros tr o pid rest Hr Haf Hpid. unfold ForkExec.run in Hr.
  runs_split Hr; simpl in Haf; simplify_eq; unit_replies; done.
Qed.

Lemma fork_exec_prints_status (cmd : list string) :
  prints_status_after_wait (ForkExec.run cmd).
Proof.
  intros tr o pid rest status Hr Haf Hpid Hst. unfold ForkExec.run in Hr.
  runs_split Hr; simpl in Haf; simplify_eq; try done.
  all: unit_replies; simpl in Hst;
    first [ by apply elem_of_nil in Hst
          | by apply list_elem_of_singleton in Hst as -> ].
Qed.

Lemma overlay_prints_status :
  prints_status_after_wait
    (Overlay.run image_name image_dir container_dir command).
Proof.
  intros tr o pid rest status Hr Haf Hpid Hst. unfold Overlay.run in Hr.
  runs_split Hr; simpl in Haf; simplify_eq; try done.
  all: unit_replies; simpl in Hst;
    first [ by apply elem_of_nil in Hst
          | by apply list_elem_of_singleton in Hst as -> ].
Qed.

Lemma overlay_waits_after_fork tr o pid rest :
  runs (Overlay.run image_name image_dir container_dir command) tr o →
  after_fork tr = Some (pid, rest) → pid ≠ 0 →
  ∃ r, head rest = Some (Ev (Waitpid pid 0) r).
Proof.
  intros Hr Haf Hpid. unfold Overlay.run in Hr.
  runs_split Hr; simpl in Haf; simplify_eq; try done.
  all: by eexists.
Qed.

(** C6, amended.  The supervisor of level 00 prints the forked child's
    PID right after the fork; the supervisor of level 04 prints nothing
    there: in the parent its next call after the fork is the wait.  Both
    supervisors, once the wait has returned, end by printing the PID
    together with the status exactly as the wait returned it. *)
Theorem supervisor_reports (cmd : list string) :
  prints_pid_after_fork (ForkExec.run cmd)
  ∧ prints_status_after_wait (ForkExec.run cmd)
  ∧ prints_status_after_wait
      (Overlay.run image_name image_dir container_dir command)
  ∧ ∀ tr o pid rest,
      runs (Overlay.run image_name image_dir container_dir command) tr o →
      after_fork tr = Some (pid, rest) → pid ≠ 0 →
      ∃ r, head rest = Some (Ev (Waitpid pid 0) r).
Proof.
  split_and!.
  - apply fork_exec_prints_pid.
  - apply fork_exec_prints_status.
  - apply overlay_prints_status.
  - apply overlay_waits_after_fork.
Qed.
End Run.

(** ** The properties on the sample runs *)

Section Samples.
Local Existing Instance kernel_headers.
Local Existing Instance display_order.

Let image_path : string := "/workshop/images/ubuntu.tar".
Let image_root : string := "/workshop/images/ubuntu/rootfs".
Let overlay_path : string := "/workshop/containers/overlay".
Let merged : string := "/workshop/containers/overlay/c1/merged".
Let dev_path : string := "/workshop/containers/overlay/c1/merged/dev".
Let devpts_path : string := "/workshop/containers/overlay/c1/merged/dev/pts".
Let devpts_mount : call :=
  Mount (Some "devpts") devpts_path (Some "devpts") 0 (Some "").
Let upper_2 : string := "/workshop/containers/overlay/c2/upper".
Let work_2 : string := "/workshop/containers/overlay/c2/work".
Let merged_2 : string := "/workshop/containers/overlay/c2/merged".
Let mount_2 : call :=
  Mount (Some "overlay") merged_2 (Some "overlayfs") MS_NODEV
    (Some ("lowerdir=" +:+ image_root +:+ ",upperdir=" +:+ upper_2
           +:+ ",workdir=" +:+ work_2)).
Let missing_path : string := "/workshop/images/debian.tar".
Let replaced : outcome unit := Abort (Replaced "/bin/sh" demo_command).
Let exited : outcome unit := Abort (Exited 1).


(** The first run for the sample image ends with the overlay mount. *)
Lemma overlay_mount_call_witness :
  runs (Overlay.create_container_root "ubuntu" "/workshop/images" "c1"
          "/workshop/containers") demo_root_run.1.1 demo_root_run.1.2
  ∧ (∃ data, last demo_root_run.1.1
             = Some (Ev (Mount (Some "overlay") merged (Some "overlayfs") 4
                           data) (Ok tt)))
  ∧ ∀ ev source target fstype flags data,
      ev ∈ demo_root_run.1.1 →
      call_of ev = Mount source target fstype flags data →
      target = merged
      ∧ data = Some ("lowerdir=/workshop/images/ubuntu/rootfs,"
                     +:+ "upperdir=/workshop/containers/overlay/c1/upper,"
                     +:+ "workdir=/workshop/containers/overlay/c1/work")
      ∧ Z.land flags 4 = 4.
Proof.
  assert (runs (Overlay.create_container_root "ubuntu" "/workshop/images"
                  "c1" "/workshop/containers")
            demo_root_run.1.1 demo_root_run.1.2) as Hr.
  { apply (runs_in_runs _ demo_state _ _ demo_root_run.2).
    exact (exec_runs_in_self
             (Overlay.create_container_root "ubuntu" "/workshop/images" "c1"
                "/workshop/containers") demo_state). }
  split; [exact Hr|]. split.
  - eexists. vm_compute. reflexivity.
  - intros ev source target fstype flags data Hin Hc.
    destruct (overlay_mount_call "ubuntu" "/workshop/images" "c1"
                "/workshop/containers" _ _ ev source target fstype flags
                data Hr Hin Hc) as (_ & _ & -> & -> & _ & Hl & _).
    done.
Defined.


(** The device population step on the merged root of the first run. *)
Lemma makedev_creates_witness :
  runs (Overlay.makedev dev_path) demo_makedev_run.1.1 (Returned tt)
  ∧ ∃ nodes,
      nodes ≡ₚ dev_nodes
      ∧ (call_of <$> demo_makedev_run.1.1)
          `prefix_of` (symlink_call dev_path <$> dev_symlinks)
                      ++ (mknod_call dev_path <$> nodes)
      ∧ (∀ a, Returned tt = Returned a →
              call_of <$> demo_makedev_run.1.1
              = (symlink_call dev_path <$> dev_symlinks)
                ++ (mknod_call dev_path <$> nodes)
              ∧ Forall returned demo_makedev_run.1.1)
      ∧ stat.S_IFMT (Z.lor 0x1b6 stat.S_IFCHR) = stat.S_IFCHR
      ∧ stat.S_IMODE (Z.lor 0x1b6 stat.S_IFCHR) = 0x1b6
      ∧ Forall (λ d, os_major (os_makedev d.2.1 d.2.2) = d.2.1
                     ∧ os_minor (os_makedev d.2.1 d.2.2) = d.2.2) nodes.
Proof.
  assert (runs (Overlay.makedev dev_path) demo_makedev_run.1.1 (Returned tt))
    as Hr.
  { apply (exec_runs _ demo_root_run.2 _ _ demo_makedev_run.2).
    vm_compute; reflexivity. }
  split; [exact Hr|].
  exact (makedev_creates dev_path _ _ Hr).
Defined.

(** The child of a run for the image that is not there: [contain] raises
    the assertion error, which the child reports before it exits. *)
Lemma child_reports_and_exits_witness :
  runs (Overlay.run "debian" "/workshop/images" "/workshop/containers"
          demo_command) demo_child_trace exited
  ∧ Ev Fork (Ok 0) ∈ demo_child_trace
  ∧ ∃ container_id tr_c o_c,
      runs (Overlay.contain demo_command "debian" "/workshop/images"
              container_id "/workshop/containers") tr_c o_c
      ∧ ((∃ file, o_c = Abort (Replaced file demo_command)
                  ∧ exited = Abort (Replaced file demo_command)
                  ∧ demo_child_trace
                    = Ev Uuid4 (Ok container_id) :: Ev Fork (Ok 0) :: tr_c)
         ∨ ∃ e, o_c = Abort (Raised e)
                ∧ if is_Exception e
                  then demo_child_trace
                       = Ev Uuid4 (Ok container_id) :: Ev Fork (Ok 0)
                         :: tr_c
                         ++ [Ev (PrintExc e) (Ok tt); Halt (Exit_ 1)]
                       ∧ exited = exited
                  else demo_child_trace
                       = Ev Uuid4 (Ok container_id) :: Ev Fork (Ok 0)
                         :: tr_c
                       ∧ exited = Abort (Raised e)).
Proof.
  assert (runs (Overlay.run "debian" "/workshop/images"
                  "/workshop/containers" demo_command)
            demo_child_trace exited) as Hr
    by (unfold exited; replay_trace demo_child_trace).
  assert (Ev Fork (Ok 0) ∈ demo_child_trace) as Hin
    by apply list_elem_of_further, list_elem_of_here.
  split; [exact Hr|]. split; [exact Hin|].
  exact (child_reports_and_exits "debian" "/workshop/images"
           "/workshop/containers" demo_command _ _ Hr Hin).
Defined.

(** C6, the failing run.  In the parent of a run of level 04's [run] whose
    fork answered the PID 4242, the call right after the fork is the wait:
    the PID is not printed there. *)
Lemma overlay_run_skips_pid_print :
  runs (Overlay.run "ubuntu" "/workshop/images" "/workshop/containers"
          demo_command) demo_parent_trace (Returned tt)
  ∧ after_fork demo_parent_trace
    = Some (4242, [Ev (Waitpid 4242 0) (Ok (4242, 256));
                   Ev (Print "4242 exited with status 256") (Ok tt)])
  ∧ ¬ prints_pid_after_fork
        (Overlay.run "ubuntu" "/workshop/images" "/workshop/containers"
           demo_command).
Proof.
  assert (runs (Overlay.run "ubuntu" "/workshop/images"
                  "/workshop/containers" demo_command)
            demo_parent_trace (Returned tt)) as Hr
    by replay_trace demo_parent_trace.
  split; [exact Hr|]. split; [done|].
  intros Hp. by specialize (Hp _ _ 4242 _ Hr eq_refl ltac:(done)).
Qed.



(** A second container from the sample image, made once the first run has
    extracted it. *)
Lemma materialize_idempotent_witness :
  is_Some (fs demo_root_run.2 !! image_root)
  ∧ runs_in demo_root_run.2
      (Overlay.create_container_root "ubuntu" "/workshop/images" "c2"
         "/workshop/containers")
      demo_second_run.1.1 demo_second_run.1.2 demo_second_run.2
  ∧ members_read demo_second_run.1.1 = []
  ∧ extract_calls demo_second_run.1.1 = []
  ∧ (∀ ev, ev ∈ demo_second_run.1.1 →
       (∃ q, call_of ev = Exists q) ∨ (∃ l, call_of ev = Print l)
       ∨ call_of ev ∈ [Makedirs overlay_path; Makedirs upper_2;
                       Makedirs work_2; Makedirs merged_2; mount_2])
  ∧ (Forall (λ d, ¬ starts d image_root)
            [overlay_path; upper_2; work_2; merged_2] →
     ∀ k, starts k image_root →
          fs demo_second_run.2 !! k = fs demo_root_run.2 !! k)
  ∧ is_Some (fs demo_second_run.2 !! image_root)
  ∧ (∀ r, demo_second_run.1.2 = Returned r →
          r = merged_2
          ∧ ∀ st0 tr0 r0 st1,
              runs_in st0 (Overlay.create_container_root "ubuntu"
                             "/workshop/images" "c2" "/workshop/containers")
                tr0 (Returned r0) st1 →
              r0 = r).
Proof.
  assert (is_Some (fs demo_root_run.2 !! image_root)) as Hroot.
  { vm_compute. by eexists. }
  assert (runs_in demo_root_run.2
            (Overlay.create_container_root "ubuntu" "/workshop/images" "c2"
               "/workshop/containers")
            demo_second_run.1.1 demo_second_run.1.2 demo_second_run.2)
    as Hr
    by exact (exec_runs_in_self
                (Overlay.create_container_root "ubuntu" "/workshop/images"
                   "c2" "/workshop/containers") demo_root_run.2).
  split; [exact Hroot|]. split; [exact Hr|].
  exact (materialize_idempotent "ubuntu" "/workshop/images" "c2"
           "/workshop/containers" _ _ _ _ Hroot Hr).
Defined.

(** The run for the image that is not there, started without the overlay
    base directory. *)
Lemma missing_image_after_overlay_witness :
  runs_in demo_state
    (Overlay.create_container_root "debian" "/workshop/images" "c1"
       "/workshop/containers")
    demo_missing_run.1.1 demo_missing_run.1.2 demo_missing_run.2
  ∧ Ev (Exists missing_path) (Ok false) ∈ demo_missing_run.1.1
  ∧ fs demo_state !! overlay_path = None
  ∧ demo_missing_run.1.2
    = Abort (Raised (AssertionError ("unable to locate image " +:+ "debian")))
  ∧ (fs demo_state !! overlay_path = None →
     demo_missing_run.1.1
     = [Ev (Exists overlay_path) (Ok false);
        Ev (Makedirs overlay_path) (Ok tt);
        Ev (Exists missing_path) (Ok false)]
     ∧ fs demo_missing_run.2 !! overlay_path = Some Dir)
  ∧ (is_Some (fs demo_state !! overlay_path) →
     demo_missing_run.1.1
     = [Ev (Exists overlay_path) (Ok true);
        Ev (Exists missing_path) (Ok false)]
     ∧ demo_missing_run.2 = demo_state).
Proof.
  assert (runs_in demo_state
            (Overlay.create_container_root "debian" "/workshop/images" "c1"
               "/workshop/containers")
            demo_missing_run.1.1 demo_missing_run.1.2 demo_missing_run.2)
    as Hr
    by exact (exec_runs_in_self
                (Overlay.create_container_root "debian" "/workshop/images"
                   "c1" "/workshop/containers") demo_state).
  assert (Ev (Exists missing_path) (Ok false) ∈ demo_missing_run.1.1)
    as Hin.
  { vm_compute. do 2 apply list_elem_of_further. apply list_elem_of_here. }
  split; [exact Hr|]. split; [exact Hin|].
  split; [vm_compute; reflexivity|].
  exact (missing_image_after_overlay "debian" "/workshop/images" "c1"
           "/workshop/containers" _ _ _ _ Hr Hin).
Defined.

End Samples.
